(** * One-time code verification (index.js): model and properties

    The server derives time-windowed numeric codes from a shared seed
    (HMAC-SHA256 of a window counter, RFC 4226 dynamic truncation) and
    records in the SQLite table [used_codes] which (window, session) pairs
    have already redeemed a code.

    Conventions of the model:
    - JavaScript numbers that the code uses as integers (times, counters,
      bytes) are [Z], as they are exactly while they stay below 2^53;
      [Math.floor(a / b)] is [a / b] and [a % b] is [Z.rem a b] for a
      divisor other than 0 (JavaScript then gives an infinity or NaN,
      which [Z] does not have: the statements that name the window or the
      code list assume a step other than 0); the
      32-bit coercions of the bitwise operators are written out
      ([ToInt32], [ToUint32]).
    - A [Buffer] is a [list Z] of bytes; reading outside of it yields
      [undefined], which is [None].
    - Strings are [string]; the seed stands for its UTF-8 bytes and a
      submitted code for its sequence of code units.
    - The request handler is a small program over the two SQL statements it
      issues, so that it can be run to completion (one Node.js process runs
      a synchronous handler without interruption) or interleaved with
      another handler at statement granularity (several server processes
      opened on the same [data.db]).
    - Cookie parsing, headers and static files are left out; the handler
      takes the session id it has settled on. *)

From Stdlib Require Import ZArith Lia.
From Stdlib Require Import Ascii String.
From stdpp Require Import base tactics option list strings gmap.

Local Open Scope Z_scope.

(** ** JavaScript integer operators *)

Module JS.

Definition ToUint32 (x : Z) : Z := x mod 2 ^ 32.

Definition ToInt32 (x : Z) : Z :=
  let m := x mod 2 ^ 32 in
  if 2 ^ 31 <=? m then m - 2 ^ 32 else m.

(** [undefined] converts to NaN and then to 0 under [ToInt32]. *)
Definition num (v : option Z) : Z := default 0 v.

(** [a & b] *)
Definition and (a b : Z) : Z := Z.land (ToInt32 a) (ToInt32 b).

(** [a | b] *)
Definition or (a b : Z) : Z := Z.lor (ToInt32 a) (ToInt32 b).

(** [a << b] *)
Definition shl (a b : Z) : Z :=
  ToInt32 (Z.shiftl (ToInt32 a) (ToUint32 b mod 32)).

(** [a >>> b] *)
Definition ushr (a b : Z) : Z :=
  Z.shiftr (ToUint32 a) (ToUint32 b mod 32).

(** [buf[i]] on a Buffer: [None] is [undefined]. *)
Definition idx (buf : list Z) (i : Z) : option Z :=
  if i <? 0 then None else buf !! Z.to_nat i.

End JS.

(** ** The hash primitives of Node's [crypto] module

    [crypto.createHash('sha256')] and [crypto.createHmac('sha256', key)]
    are FIPS 180-4 SHA-256 and RFC 2104 HMAC over byte strings. *)

Module Crypto.

(** [n] bytes of [x], most significant first. *)
Definition be_bytes (n : nat) (x : Z) : list Z :=
  map (fun i => (x / 256 ^ Z.of_nat (n - 1 - i)) mod 256) (seq 0 n).

(** The unsigned integer that a big-endian byte string denotes. *)
Definition be_value (bs : list Z) : Z :=
  fold_left (fun acc b => acc * 256 + b) bs 0.

Definition w32 (x : Z) : Z := x mod 2 ^ 32.
Definition rotr (n x : Z) : Z :=
  Z.lor (Z.shiftr x n) (w32 (Z.shiftl x (32 - n))).
Definition lnot32 (x : Z) : Z := Z.lxor x (2 ^ 32 - 1).

Definition Ch (x y z : Z) : Z :=
  Z.lxor (Z.land x y) (Z.land (lnot32 x) z).
Definition Maj (x y z : Z) : Z :=
  Z.lxor (Z.lxor (Z.land x y) (Z.land x z)) (Z.land y z).
Definition bsig0 (x : Z) : Z :=
  Z.lxor (Z.lxor (rotr 2 x) (rotr 13 x)) (rotr 22 x).
Definition bsig1 (x : Z) : Z :=
  Z.lxor (Z.lxor (rotr 6 x) (rotr 11 x)) (rotr 25 x).
Definition ssig0 (x : Z) : Z :=
  Z.lxor (Z.lxor (rotr 7 x) (rotr 18 x)) (Z.shiftr x 3).
Definition ssig1 (x : Z) : Z :=
  Z.lxor (Z.lxor (rotr 17 x) (rotr 19 x)) (Z.shiftr x 10).

(** The round constants are the first 32 fractional bits of the cube
    roots of the first 64 primes, the initial state those of the square
    roots of the first 8. *)
Definition primes64 : list Z :=
  [2; 3; 5; 7; 11; 13; 17; 19; 23; 29; 31; 37; 41; 43; 47; 53;
   59; 61; 67; 71; 73; 79; 83; 89; 97; 101; 103; 107; 109; 113; 127; 131;
   137; 139; 149; 151; 157; 163; 167; 173; 179; 181; 191; 193; 197; 199;
   211; 223; 227; 229; 233; 239; 241; 251; 257; 263; 269; 271; 277; 281;
   283; 293; 307; 311].

(** Largest [r] below [2 ^ bits] (added to the start value) with
    [r ^ k <= n], found bit by bit. *)
Fixpoint iroot (k : Z) (bits : nat) (n r : Z) : Z :=
  match bits with
  | O => r
  | S b =>
      let r' := r + 2 ^ Z.of_nat b in
      if r' ^ k <=? n then iroot k b n r' else iroot k b n r
  end.

Definition frac32 (k p : Z) : Z := w32 (iroot k 40 (p * 2 ^ (32 * k)) 0).

Definition K : list Z := Eval vm_compute in map (frac32 3) primes64.
Definition H0 : list Z := Eval vm_compute in map (frac32 2) (take 8 primes64).

(** Padding: a 1 bit, zeros to 56 mod 64 bytes, the bit length on 8 bytes. *)
Definition pad (msg : list Z) : list Z :=
  let l := Z.of_nat (length msg) in
  msg ++ [128] ++ replicate (Z.to_nat ((55 - l) mod 64)) 0
      ++ be_bytes 8 (8 * l).

Fixpoint blocks (n : nat) (bs : list Z) : list (list Z) :=
  match n with
  | O => []
  | S m => take 64 bs :: blocks m (drop 64 bs)
  end.

Fixpoint words (n : nat) (bs : list Z) : list Z :=
  match n with
  | O => []
  | S m => be_value (take 4 bs) :: words m (drop 4 bs)
  end.

Definition sum32 (xs : list Z) : Z := w32 (foldr Z.add 0 xs).

(** Extends the message schedule by [n] words. *)
Fixpoint schedule (n : nat) (w : list Z) : list Z :=
  match n with
  | O => w
  | S m =>
      let i := length w in
      let at_ j := default 0 (w !! (i - j)%nat) in
      schedule m (w ++ [sum32 [ssig1 (at_ 2%nat); at_ 7%nat;
                                ssig0 (at_ 15%nat); at_ 16%nat]])
  end.

Definition round (s : list Z) (kw : Z * Z) : list Z :=
  match s with
  | [a; b; c; d; e; f; g; h] =>
      let t1 := sum32 [h; bsig1 e; Ch e f g; kw.1; kw.2] in
      let t2 := sum32 [bsig0 a; Maj a b c] in
      [sum32 [t1; t2]; a; b; c; sum32 [d; t1]; e; f; g]
  | _ => s
  end.

Definition compress (s : list Z) (block : list Z) : list Z :=
  let w := schedule 48 (words 16 block) in
  zip_with (fun x y => sum32 [x; y]) s (fold_left round (zip K w) s).

Definition sha256 (msg : list Z) : list Z :=
  let p := pad msg in
  concat (map (be_bytes 4)
           (fold_left compress (blocks (length p / 64)%nat p) H0)).

Definition hmac_sha256 (key msg : list Z) : list Z :=
  let k0 := if (64 <? length key)%nat then sha256 key else key in
  let kp := k0 ++ replicate (64 - length k0) 0 in
  sha256 (map (Z.lxor 92) kp ++ sha256 (map (Z.lxor 54) kp ++ msg)).

End Crypto.

(** ** Reads of a Buffer, with the indices they touch

    [dynamicTruncate] indexes its argument five times.  The reads are
    sequenced in a writer monad that keeps the list of indices, so that
    "every access is in bounds" is a property of the function itself. *)

Record Acc (A : Type) := mkAcc { val : A; reads : list Z }.
Arguments mkAcc {A} _ _.
Arguments val {A} _.
Arguments reads {A} _.

Global Instance Acc_ret : MRet Acc := fun A a => mkAcc a [].
Global Instance Acc_bind : MBind Acc := fun A B f m =>
  let r := f (val m) in mkAcc (val r) (reads m ++ reads r).

(** [buf[i]] used as an operand of a bitwise operator. *)
Definition read (buf : list Z) (i : Z) : Acc Z :=
  mkAcc (JS.num (JS.idx buf i)) [i].

Definition is_byte (b : Z) : Prop := 0 <= b < 256.

Definition in_bounds (buf : list Z) (i : Z) : Prop :=
  0 <= i < Z.of_nat (length buf).

(** ** Helpers of index.js *)

(** [Buffer.from(str, 'utf8')]: the string stands for its UTF-8 bytes. *)
Fixpoint textToBytes (str : string) : list Z :=
  match str with
  | EmptyString => []
  | String a s' => Z.of_nat (Ascii.nat_of_ascii a) :: textToBytes s'
  end.

Definition hmacSha256 (keyBytes msgBytes : list Z) : list Z :=
  Crypto.hmac_sha256 keyBytes msgBytes.

(** The loop [for (let i = 7; i >= 0; i--)] with [n = i + 1] iterations
    left; [buf[i] = v] on a Buffer stores [v] modulo 256. *)
Fixpoint numTo8ByteBE_loop (n : nat) (num : Z) (buf : list Z) : list Z :=
  match n with
  | O => buf
  | S i =>
      numTo8ByteBE_loop i (num / 256) (<[i := JS.and num 255 mod 256]> buf)
  end.

Definition numTo8ByteBE (num : Z) : list Z :=
  numTo8ByteBE_loop 8 num (replicate 8 0).

Definition deriveKeyBytes (seed : string) : list Z :=
  Crypto.sha256 (textToBytes seed).

Definition dynamicTruncateM (hmacBuf : list Z) : Acc Z :=
  last ← read hmacBuf (Z.of_nat (length hmacBuf) - 1);
  let offset := JS.and last 15 in
  b0 ← read hmacBuf offset;
  b1 ← read hmacBuf (offset + 1);
  b2 ← read hmacBuf (offset + 2);
  b3 ← read hmacBuf (offset + 3);
  let bin :=
    JS.or (JS.or (JS.or (JS.shl (JS.and b0 127) 24) (JS.shl b1 16))
                 (JS.shl b2 8)) b3 in
  mret (JS.ushr bin 0).

Definition dynamicTruncate (hmacBuf : list Z) : Z :=
  val (dynamicTruncateM hmacBuf).

(** [String(n)] for a non-negative integer [n]: its decimal digits. *)
Definition digit_char (d : Z) : Ascii.ascii :=
  Ascii.ascii_of_nat (48 + Z.to_nat d).

Fixpoint dec_digits (fuel : nat) (n : Z) (acc : string) : string :=
  match fuel with
  | O => acc
  | S f =>
      let acc' := String (digit_char (n mod 10)) acc in
      if n <? 10 then acc' else dec_digits f (n / 10) acc'
  end.

Definition Number_toString (n : Z) : string :=
  dec_digits (S (Z.to_nat (Z.log2 n))) n "".

Fixpoint zeros (n : nat) (s : string) : string :=
  match n with
  | O => s
  | S m => String "0"%char (zeros m s)
  end.

(** [s.padStart(targetLength, '0')] *)
Definition padStart0 (targetLength : nat) (s : string) : string :=
  zeros (targetLength - String.length s) s.

Definition totpForCounter (seed : string) (counter : Z) (digits : nat)
  : string :=
  let key := deriveKeyBytes seed in
  let msg := numTo8ByteBE counter in
  let mac := hmacSha256 key msg in
  let bin := dynamicTruncate mac in
  let mod_ := 10 ^ Z.of_nat digits in
  padStart0 digits (Number_toString (Z.rem bin mod_)).

(** The [d]-digit decimal numeral of [n], most significant digit first,
    and the value of a decimal numeral. *)
Fixpoint numeral (d : nat) (n : Z) (acc : string) : string :=
  match d with
  | O => acc
  | S d' => numeral d' (n / 10) (String (digit_char (n mod 10)) acc)
  end.

Fixpoint dec_value_from (v : Z) (s : string) : Z :=
  match s with
  | EmptyString => v
  | String c s' =>
      dec_value_from (10 * v + (Z.of_nat (Ascii.nat_of_ascii c) - 48)) s'
  end.

Definition dec_value (s : string) : Z := dec_value_from 0 s.

Definition is_digit (c : Ascii.ascii) : bool :=
  let n := Ascii.nat_of_ascii c in (48 <=? n)%nat && (n <=? 57)%nat.

Fixpoint all_digits (s : string) : bool :=
  match s with
  | EmptyString => true
  | String c s' => is_digit c && all_digits s'
  end.

(** ** The reference definition of a code

    Written after section 4.1 of the specification: key = SHA-256(secret);
    the counter on 8 bytes, big-endian; mac = HMAC-SHA256(key, counter
    bytes); offset = mac[31] & 0x0F; v = the big-endian integer of
    mac[offset..offset+3] with the top bit of its first byte masked off;
    the code is v mod 10^digits in decimal, left-padded with zeros. *)

Module Reference.

Definition truncate (mac : list Z) : Z :=
  let offset := Z.land (default 0 (mac !! 31%nat)) 15 in
  match take 4 (drop (Z.to_nat offset) mac) with
  | b :: bs => Crypto.be_value (Z.land b 127 :: bs)
  | [] => 0
  end.

Definition computeCode (secret : string) (counter : Z) (digits : nat)
  : string :=
  let key := Crypto.sha256 (textToBytes secret) in
  let counterBytes := Crypto.be_bytes 8 counter in
  let mac := Crypto.hmac_sha256 key counterBytes in
  let v := truncate mac in
  padStart0 digits (Number_toString (v mod 10 ^ Z.of_nat digits)).

End Reference.

(** The process configuration read from the environment. *)
Record config := Config {
  PROCTOR_SEED : string;
  CODE_STEP_SECONDS : Z;
  DRIFT_STEPS : Z
}.

(** For [stepSec] other than 0; at 0 the program's result is an infinity
    or NaN. *)
Definition currentWindow (nowMs stepSec : Z) : Z :=
  let t := nowMs / 1000 in
  t / stepSec.

Record valid := Valid {
  window : Z;
  codes : list string;
  expiresIn : Z
}.

(** For [CODE_STEP_SECONDS] other than 0, as [currentWindow]. *)
Definition validCodes (cfg : config) (seed : string) (nowMs : Z) : valid :=
  let ctr := currentWindow nowMs (CODE_STEP_SECONDS cfg) in
  {| window := ctr;
     codes := [ totpForCounter seed (ctr - DRIFT_STEPS cfg) 6;
                totpForCounter seed ctr 6;
                totpForCounter seed (ctr + DRIFT_STEPS cfg) 6 ];
     expiresIn :=
       CODE_STEP_SECONDS cfg - Z.rem (nowMs / 1000) (CODE_STEP_SECONDS cfg) |}.

(** ** The table [used_codes]

    [PRIMARY KEY (window, sid)] is not built into the type: the table is
    the list of its rows in insertion order, and the key constraint shows
    in what [INSERT OR IGNORE] does. *)

Module Db.

Record row := Row { window : Z; sid : string; created_at : Z }.

Definition table := list row.

Definition has_key (w : Z) (s : string) (r : row) : bool :=
  (window r =? w) && String.eqb (sid r) s.

(** [SELECT 1 FROM used_codes WHERE window = ? AND sid = ?], [.get]:
    whether a row came back. *)
Definition select_used (db : table) (w : Z) (s : string) : bool :=
  existsb (has_key w s) db.

(** [INSERT OR IGNORE INTO used_codes ... VALUES (?, ?, ?)], [.run]:
    the new table and the number of rows changed. *)
Definition insert_or_ignore (db : table) (r : row) : table * Z :=
  if select_used db (window r) (sid r) then (db, 0) else (db ++ [r], 1).

(** Number of rows under a key. *)
Definition count (db : table) (w : Z) (s : string) : nat :=
  length (List.filter (has_key w s) db).

(** The primary-key invariant: at most one row per (window, sid). *)
Definition unique_keys (db : table) : Prop :=
  forall w s, (count db w s <= 1)%nat.

End Db.

(** ** The handler of [POST /api/verify-code] *)

(** The [code] field of the parsed JSON body. *)
Inductive jsval :=
| JUndefined
| JNull
| JBool (b : bool)
| JNumber (n : Z)
| JString (s : string)
| JObject.

(** [!v] *)
Definition falsy (v : jsval) : bool :=
  match v with
  | JUndefined | JNull => true
  | JBool b => negb b
  | JNumber n => n =? 0
  | JString s => String.eqb s ""
  | JObject => false
  end.

Definition is_string (v : jsval) : bool :=
  match v with JString _ => true | _ => false end.

(** [v.length] for a string. *)
Definition js_length (v : jsval) : Z :=
  match v with JString s => Z.of_nat (String.length s) | _ => 0 end.

(** [codes.includes(v)] *)
Definition includes (codes : list string) (v : jsval) : bool :=
  match v with
  | JString s => bool_decide (s ∈ codes)
  | _ => false
  end.

(** The responses, by the outcome they report:
    400 [invalid_code], 500 [server_not_configured], 409 [already_used],
    401 [invalid_code] and 200 [ok]. *)
Inductive outcome :=
| InvalidInput
| ServerMisconfigured
| AlreadyUsed (win expiresInSeconds : Z)
| InvalidCode (win expiresInSeconds : Z)
| Accepted (win expiresInSeconds : Z).

(** A handler as a program over the statements it sends to the
    database; each statement is one atomic step. *)
Inductive prog (A : Type) : Type :=
| Ret (a : A)
| Select (w : Z) (s : string) (k : bool -> prog A)
| InsertOrIgnore (w : Z) (s : string) (created_at : Z) (k : Z -> prog A).
Arguments Ret {A} _.
Arguments Select {A} _ _ _.
Arguments InsertOrIgnore {A} _ _ _ _.

(** [sid] is the session after the cookie has been read (or a fresh one
    made); [now] and [now'] are the two readings of [Date.now()], in
    [validCodes] and at the insert. *)
Definition verify_code (cfg : config) (sid : string) (code : jsval)
    (now now' : Z) : prog outcome :=
  if falsy code || negb (is_string code) || (js_length code <? 6) then
    Ret InvalidInput
  else if String.eqb (PROCTOR_SEED cfg) "" then
    Ret ServerMisconfigured
  else
    let v := validCodes cfg (PROCTOR_SEED cfg) now in
    let win := window v in
    Select win sid (fun check =>
      if check then Ret (AlreadyUsed win (expiresIn v))
      else if negb (includes (codes v) code) then
        Ret (InvalidCode win (expiresIn v))
      else
        InsertOrIgnore win sid now' (fun _ =>
          Ret (Accepted win (expiresIn v)))).

(** *** Running a handler to completion *)

Inductive event :=
| ESelect (w : Z) (s : string)
| EInsert (w : Z) (s : string) (created_at : Z).

Record result (A : Type) := Result {
  out : A;
  db_after : Db.table;
  trace : list event
}.
Arguments Result {A} _ _ _.
Arguments out {A} _.
Arguments db_after {A} _.
Arguments trace {A} _.

Fixpoint run {A} (p : prog A) (db : Db.table) : result A :=
  match p with
  | Ret a => Result a db []
  | Select w s k =>
      let r := run (k (Db.select_used db w s)) db in
      Result (out r) (db_after r) (ESelect w s :: trace r)
  | InsertOrIgnore w s t k =>
      let '(db', changes) := Db.insert_or_ignore db (Db.Row w s t) in
      let r := run (k changes) db' in
      Result (out r) (db_after r) (EInsert w s t :: trace r)
  end.

(** [verify(session, code, now)] against a ledger state. *)
Definition verify (cfg : config) (db : Db.table) (sid : string)
    (code : jsval) (now now' : Z) : result outcome :=
  run (verify_code cfg sid code now now') db.

(** A request, and serving a sequence of them one after the other. *)
Record request := Request {
  req_sid : string;
  req_code : jsval;
  req_now : Z;
  req_now' : Z
}.

Definition serve (cfg : config) (db : Db.table) (r : request) : Db.table :=
  db_after (verify cfg db (req_sid r) (req_code r) (req_now r) (req_now' r)).

Definition serve_all (cfg : config) (db : Db.table) (rs : list request)
  : Db.table :=
  fold_left (serve cfg) rs db.

(** The window of a request and the seconds left in it. *)
Definition win_of (cfg : config) (now : Z) : Z :=
  currentWindow now (CODE_STEP_SECONDS cfg).

Definition exp_of (cfg : config) (now : Z) : Z :=
  expiresIn (validCodes cfg (PROCTOR_SEED cfg) now).

(** The boundary check lets [code] through. *)
Definition passes_check (code : jsval) : Prop :=
  exists s, code = JString s /\ (6 <= String.length s)%nat.

Definition is_accepted (o : outcome) : bool :=
  match o with Accepted _ _ => true | _ => false end.

Definition is_insert (e : event) : bool :=
  match e with EInsert _ _ _ => true | ESelect _ _ => false end.


(** The MAC that [totpForCounter] truncates. *)
Definition mac_of (seed : string) (counter : Z) : list Z :=
  hmacSha256 (deriveKeyBytes seed) (numTo8ByteBE counter).

(** The five ways through the handler. *)
Inductive verify_spec (cfg : config) (db : Db.table) (sid : string)
    (code : jsval) (now now' : Z) : result outcome -> Prop :=
| VInvalidInput :
    ~ passes_check code ->
    verify_spec cfg db sid code now now' (Result InvalidInput db [])
| VMisconfigured :
    passes_check code -> PROCTOR_SEED cfg = ""%string ->
    verify_spec cfg db sid code now now' (Result ServerMisconfigured db [])
| VAlreadyUsed :
    passes_check code -> PROCTOR_SEED cfg <> ""%string ->
    Db.select_used db (win_of cfg now) sid = true ->
    verify_spec cfg db sid code now now'
      (Result (AlreadyUsed (win_of cfg now) (exp_of cfg now)) db
              [ESelect (win_of cfg now) sid])
| VInvalidCode :
    passes_check code -> PROCTOR_SEED cfg <> ""%string ->
    Db.select_used db (win_of cfg now) sid = false ->
    includes (codes (validCodes cfg (PROCTOR_SEED cfg) now)) code = false ->
    verify_spec cfg db sid code now now'
      (Result (InvalidCode (win_of cfg now) (exp_of cfg now)) db
              [ESelect (win_of cfg now) sid])
| VAccepted :
    passes_check code -> PROCTOR_SEED cfg <> ""%string ->
    Db.select_used db (win_of cfg now) sid = false ->
    includes (codes (validCodes cfg (PROCTOR_SEED cfg) now)) code = true ->
    verify_spec cfg db sid code now now'
      (Result (Accepted (win_of cfg now) (exp_of cfg now))
              (db ++ [Db.Row (win_of cfg now) sid now'])
              [ESelect (win_of cfg now) sid;
               EInsert (win_of cfg now) sid now']).

(** *** Interleaving handlers statement by statement *)

Definition step {A} (p : prog A) (db : Db.table) : prog A * Db.table :=
  match p with
  | Ret a => (p, db)
  | Select w s k => (k (Db.select_used db w s), db)
  | InsertOrIgnore w s t k =>
      let '(db', changes) := Db.insert_or_ignore db (Db.Row w s t) in
      (k changes, db')
  end.

(** [sched] names, step by step, the handler that runs next. *)
Fixpoint interleave {A} (sched : list nat) (ps : list (prog A))
    (db : Db.table) : list (prog A) * Db.table :=
  match sched with
  | [] => (ps, db)
  | i :: sched' =>
      match ps !! i with
      | None => interleave sched' ps db
      | Some p =>
          let '(p', db') := step p db in
          interleave sched' (<[i := p']> ps) db'
      end
  end.

Definition cfg0 : config :=
  {| PROCTOR_SEED := "test-seed"; CODE_STEP_SECONDS := 30; DRIFT_STEPS := 1 |}.

Definition cfg_drift2 : config :=
  {| PROCTOR_SEED := "test-seed"; CODE_STEP_SECONDS := 30; DRIFT_STEPS := 2 |}.

(** * Further models

    The rest of index.js and the utility script, for the properties at
    the end of the file. *)


(** The handler of a request. *)
Definition handler (cfg : config) (r : request) : prog outcome :=
  verify_code cfg (req_sid r) (req_code r) (req_now r) (req_now' r).


(** ** The utility script show-code.js

    The script carries its own copies of the helpers, with the same
    bodies as in index.js; [totp] is written over the same models. *)

Module ShowCode.




End ShowCode.

(** ** Sessions, cookies and headers *)

(** *** String primitives

    Strings are sequences of code units below 256. *)

(** The white space that [trim] strips, among the code units below 256:
    tab, line feed, vertical tab, form feed, carriage return, space and
    no-break space. *)
Definition is_ws (c : Ascii.ascii) : bool :=
  let n := Ascii.nat_of_ascii c in
  ((9 <=? n)%nat && (n <=? 13)%nat) || (n =? 32)%nat || (n =? 160)%nat.

Fixpoint trimStart (s : string) : string :=
  match s with
  | EmptyString => EmptyString
  | String c s' => if is_ws c then trimStart s' else s
  end.

Fixpoint trimEnd (s : string) : string :=
  match s with
  | EmptyString => EmptyString
  | String c s' =>
      match trimEnd s' with
      | EmptyString => if is_ws c then EmptyString else String c EmptyString
      | r => String c r
      end
  end.

(** [s.trim()] *)
Definition trim (s : string) : string := trimEnd (trimStart s).

(** [s.split(sep)] for a one-character separator. *)
Fixpoint split (sep : Ascii.ascii) (s : string) : list string :=
  match s with
  | EmptyString => [EmptyString]
  | String c s' =>
      if Ascii.eqb c sep then EmptyString :: split sep s'
      else match split sep s' with
           | x :: xs => String c x :: xs
           | [] => [String c EmptyString]
           end
  end.

(** [s.indexOf(c)] for a one-character [c]: -1 when absent. *)
Fixpoint indexOf (c : Ascii.ascii) (s : string) : Z :=
  match s with
  | EmptyString => -1
  | String x s' =>
      if Ascii.eqb x c then 0
      else let i := indexOf c s' in if i <? 0 then -1 else i + 1
  end.

(** [s.slice(from, to)] and [s.slice(from)] for indices inside [s]. *)
Definition slice (s : string) (from to : Z) : string :=
  String.substring (Z.to_nat from) (Z.to_nat to - Z.to_nat from) s.

Definition slice_from (s : string) (from : Z) : string :=
  String.substring (Z.to_nat from) (String.length s - Z.to_nat from) s.


(** *** The lists read from the environment

    [(process.env.X || '').split(',').map(s => s.trim()).filter(Boolean)] *)
Definition env_list (env : string) : list string :=
  List.filter (fun s => negb (String.eqb s "")) (map trim (split "," env)).

(** *** Session identifiers *)

Definition hex_digit (n : Z) : Ascii.ascii :=
  if n <? 10 then Ascii.ascii_of_nat (48 + Z.to_nat n)
  else Ascii.ascii_of_nat (87 + Z.to_nat n).

(** [buf.toString('hex')] *)
Fixpoint toHex (buf : list Z) : string :=
  match buf with
  | [] => EmptyString
  | b :: bs => String (hex_digit (b / 16)) (String (hex_digit (b mod 16)) (toHex bs))
  end.

(** [makeSid]: [randomBytes] is what [crypto.randomBytes(16)] returned. *)
Definition makeSid (randomBytes : list Z) : string := toHex randomBytes.

(** The inverse of [toHex], to state that [toHex] loses nothing. *)
Definition hex_value (c : Ascii.ascii) : option Z :=
  let n := Z.of_nat (Ascii.nat_of_ascii c) in
  if (48 <=? n) && (n <=? 57) then Some (n - 48)
  else if (97 <=? n) && (n <=? 102) then Some (n - 87)
  else None.

Fixpoint fromHex (s : string) : option (list Z) :=
  match s with
  | EmptyString => Some []
  | String h (String l s') =>
      match hex_value h, hex_value l, fromHex s' with
      | Some a, Some b, Some bs => Some (a * 16 + b :: bs)
      | _, _, _ => None
      end
  | String _ EmptyString => None
  end.

(** [encodeURIComponent] on code units below 256: letters, digits and
    [- _ . ! ~ * ' ( )] are kept, every other unit becomes the [%XX]
    escapes of its UTF-8 bytes. *)
Definition unreserved (c : Ascii.ascii) : bool :=
  let n := Ascii.nat_of_ascii c in
  ((48 <=? n) && (n <=? 57))%nat || ((65 <=? n) && (n <=? 90))%nat
  || ((97 <=? n) && (n <=? 122))%nat
  || existsb (Nat.eqb n) [45; 95; 46; 33; 126; 42; 39; 40; 41]%nat.

Definition upper_hex_digit (n : Z) : Ascii.ascii :=
  if n <? 10 then Ascii.ascii_of_nat (48 + Z.to_nat n)
  else Ascii.ascii_of_nat (55 + Z.to_nat n).

Definition escape (b : Z) (s : string) : string :=
  String "%" (String (upper_hex_digit (b / 16))
                (String (upper_hex_digit (b mod 16)) s)).

Fixpoint encodeURIComponent (s : string) : string :=
  match s with
  | EmptyString => EmptyString
  | String c s' =>
      let n := Z.of_nat (Ascii.nat_of_ascii c) in
      let r := encodeURIComponent s' in
      if unreserved c then String c r
      else if n <? 128 then escape n r
      else escape (192 + n / 64) (escape (128 + n mod 64) r)
  end.

(** The object [out] of [parseCookies]: assigning to the key [__proto__]
    of a plain object with a string value stores nothing. *)
Definition obj_set (out : gmap string string) (k v : string)
  : gmap string string :=
  if String.eqb k "__proto__" then out else <[k := v]> out.

Section Cookies.

(** [decodeURIComponent]: [None] is the URIError it throws on a malformed
    escape sequence. *)
Variable decodeURIComponent : string -> option string.

(** The body of the [forEach] in [parseCookies]. *)
Definition parse_part (out : gmap string string) (part : string)
  : option (gmap string string) :=
  let i := indexOf "=" part in
  if -1 <? i then
    let k := trim (slice part 0 i) in
    let v := trim (slice_from part (i + 1)) in
    match decodeURIComponent v with
    | Some d => Some (obj_set out k d)
    | None => None
    end
  else Some out.

Fixpoint parse_parts (out : gmap string string) (parts : list string)
  : option (gmap string string) :=
  match parts with
  | [] => Some out
  | part :: rest =>
      match parse_part out part with
      | Some out' => parse_parts out' rest
      | None => None
      end
  end.

(** [parseCookies(cookieHeader)]: [None] when [decodeURIComponent]
    throws. *)
Definition parseCookies (cookieHeader : string)
  : option (gmap string string) :=
  if String.eqb cookieHeader "" then Some ∅
  else parse_parts ∅ (split ";" cookieHeader).

(** The session of a request: the [sid] cookie when there is a non-empty
    one, otherwise a fresh identifier and the [Set-Cookie] header that
    carries it. *)
Definition session_of (cookies : gmap string string) (randomBytes : list Z)
  : string * option string :=
  match cookies !! "sid"%string with
  | Some (String c s) => (String c s, None)
  | _ =>
      let sid := makeSid randomBytes in
      (sid, Some ("sid=" +:+ encodeURIComponent sid
                  +:+ "; HttpOnly; SameSite=Lax; Path=/; Max-Age=2592000"))
  end.





End Cookies.

(** A decoder that is right on the strings without [%], which
    [decodeURIComponent] returns unchanged, and gives up on the others. *)
Definition decode_plain (s : string) : option string :=
  if 0 <=? indexOf "%" s then None else Some s.

(** Every character of [s] satisfies [P]. *)
Fixpoint all_chars (P : Ascii.ascii -> bool) (s : string) : bool :=
  match s with
  | EmptyString => true
  | String c s' => P c && all_chars P s'
  end.

Definition is_lower_hex (c : Ascii.ascii) : bool :=
  let n := Ascii.nat_of_ascii c in
  ((48 <=? n) && (n <=? 57))%nat || ((97 <=? n) && (n <=? 102))%nat.

(** A cookie value that passes through [parseCookies] unchanged: no
    separator, no escape and no white space in it. *)
Definition plain_char (c : Ascii.ascii) : bool :=
  negb (Ascii.eqb c ";") && negb (Ascii.eqb c "=") && negb (Ascii.eqb c "%")
  && negb (is_ws c).

(** What is known of [decodeURIComponent]: a string without [%] comes
    back unchanged. *)
Definition decodes_plain (decodeURIComponent : string -> option string)
  : Prop :=
  forall s, indexOf "%" s = -1 -> decodeURIComponent s = Some s.

(** Two draws of [crypto.randomBytes(16)]. *)
Definition bytes16 : list Z :=
  [1; 2; 3; 4; 5; 6; 7; 8; 9; 10; 11; 12; 13; 14; 15; 255].


(** * Test vectors *)

Example sha256_abc :
  Crypto.sha256 (textToBytes "abc")
  = [186; 120; 22; 191; 143; 1; 207; 234; 65; 65; 64; 222; 93; 174; 34; 35;
     176; 3; 97; 163; 150; 23; 122; 156; 180; 16; 255; 97; 242; 0; 21; 173].
Proof. vm_compute. reflexivity. Qed.

Example mac_1000 :
  hmacSha256 (deriveKeyBytes "test-seed") (numTo8ByteBE 1000)
  = [50; 201; 138; 207; 101; 127; 139; 60; 114; 241; 14; 52; 253; 179; 160;
     75; 107; 178; 117; 205; 31; 209; 236; 243; 1; 203; 66; 218; 13; 243;
     124; 167].
Proof. vm_compute. reflexivity. Qed.

Example totp_test_seed :
  map (fun c => totpForCounter "test-seed" c 6) [998; 999; 1000; 1001; 1002]
  = ["596932"; "729391"; "165774"; "111254"; "500093"]%string.
Proof. vm_compute. reflexivity. Qed.

Example totp_empty_seed : totpForCounter "" 0 6 = "178023"%string.
Proof. vm_compute. reflexivity. Qed.

Example verify_fresh :
  verify cfg0 [] "s1" (JString "165774") 30000000 30000001
  = Result (Accepted 1000 30) [Db.Row 1000 "s1" 30000001]
           [ESelect 1000 "s1"; EInsert 1000 "s1" 30000001].
Proof. vm_compute. reflexivity. Qed.


(** * Properties and claims *)

(** ** Bytes and the hash primitives *)

Section CryptoFacts.
Import Crypto.

Lemma be_bytes_length n x : length (be_bytes n x) = n.
Proof. unfold be_bytes. by rewrite length_map, length_seq. Qed.

Lemma be_bytes_is_byte n x : Forall is_byte (be_bytes n x).
Proof.
  unfold be_bytes. apply Forall_map, Forall_forall. intros i _.
  unfold is_byte. simpl. apply Z.mod_pos_bound. lia.
Qed.

Lemma round_length s kw : length s = 8%nat -> length (round s kw) = 8%nat.
Proof.
  intros H. do 9 (destruct s as [|? s]; try discriminate H). reflexivity.
Qed.

Lemma rounds_length kws s :
  length s = 8%nat -> length (fold_left round kws s) = 8%nat.
Proof.
  revert s. induction kws as [|kw kws IH]; intros s H; simpl; [done|].
  apply IH, round_length, H.
Qed.

Lemma compress_length s block :
  length s = 8%nat -> length (compress s block) = 8%nat.
Proof.
  intros H. unfold compress.
  rewrite length_zip_with, rounds_length by done. lia.
Qed.

Lemma compress_all_length bs s :
  length s = 8%nat -> length (fold_left compress bs s) = 8%nat.
Proof.
  revert s. induction bs as [|b bs IH]; intros s H; simpl; [done|].
  apply IH, compress_length, H.
Qed.

Lemma sha256_length msg : length (sha256 msg) = 32%nat.
Proof.
  unfold sha256.
  pose proof (compress_all_length
                (blocks (length (pad msg) / 64) (pad msg)) H0 eq_refl) as H.
  destruct (fold_left compress _ H0) as [|a s]; [done|].
  do 8 (destruct s as [|? s]; try discriminate H). reflexivity.
Qed.

Lemma sha256_is_byte msg : Forall is_byte (sha256 msg).
Proof.
  unfold sha256. apply Forall_concat, Forall_map, Forall_forall.
  intros x _. apply be_bytes_is_byte.
Qed.

Lemma hmac_sha256_length key msg : length (hmac_sha256 key msg) = 32%nat.
Proof. apply sha256_length. Qed.

Lemma hmac_sha256_is_byte key msg : Forall is_byte (hmac_sha256 key msg).
Proof. apply sha256_is_byte. Qed.

End CryptoFacts.

(** ** The bitwise operators on small operands *)

Section JSFacts.
Import JS.

Lemma ToInt32_small x : 0 <= x < 2 ^ 31 -> ToInt32 x = x.
Proof.
  intros H. unfold ToInt32. rewrite Z.mod_small by lia.
  destruct (Z.leb_spec (2 ^ 31) x); lia.
Qed.

Lemma ToInt32_mod256 x : ToInt32 x mod 256 = x mod 256.
Proof.
  unfold ToInt32. change (2 ^ 32) with (256 * 16777216).
  destruct (_ <=? _); Z.to_euclidean_division_equations; lia.
Qed.

Lemma land_low_bits x n : 0 <= n -> Z.land x (2 ^ n - 1) = x mod 2 ^ n.
Proof.
  intros Hn. rewrite <- Z.land_ones by done. f_equal.
  rewrite Z.ones_equiv. lia.
Qed.

(** [x & 0xff] is the low byte of an integer of either sign. *)
Lemma and_255 x : and x 255 = x mod 256.
Proof.
  unfold and. rewrite (ToInt32_small 255) by lia.
  rewrite (land_low_bits _ 8) by lia. apply ToInt32_mod256.
Qed.

Lemma and_low_bits x n :
  0 <= x < 256 -> 0 <= n < 31 -> and x (2 ^ n - 1) = x mod 2 ^ n.
Proof.
  intros Hx Hn. unfold and.
  assert (0 < 2 ^ n < 2 ^ 31).
  { split; [lia|]. apply Z.pow_lt_mono_r; lia. }
  rewrite (ToInt32_small x), (ToInt32_small (2 ^ n - 1)) by lia.
  apply land_low_bits; lia.
Qed.

(** A disjunction of a multiple of [2 ^ n] with a value below [2 ^ n]
    is their sum. *)
Lemma lor_disjoint x y n :
  0 <= n -> x mod 2 ^ n = 0 -> 0 <= y < 2 ^ n -> Z.lor x y = x + y.
Proof.
  intros Hn Hx Hy.
  assert (Z.land x y = 0) as Hland.
  { apply Z.bits_inj'. intros k Hk. rewrite Z.land_spec, Z.bits_0.
    destruct (Z.lt_ge_cases k n) as [Hlt|Hge].
    - rewrite <- (Z.mod_pow2_bits_low x n k), Hx, Z.bits_0 by lia. done.
    - rewrite <- (Z.mod_small y (2 ^ n)) by lia.
      rewrite Z.mod_pow2_bits_high by lia. apply andb_false_r. }
  rewrite <- Z.lxor_lor by done. symmetry. by apply Z.add_nocarry_lxor.
Qed.

Lemma shl_small x n :
  0 <= n < 32 -> 0 <= x -> x * 2 ^ n < 2 ^ 31 -> shl x n = x * 2 ^ n.
Proof.
  intros Hn Hx Hb. unfold shl, ToUint32.
  assert (0 < 2 ^ n) by lia.
  rewrite (Z.mod_small n) by lia. rewrite (Z.mod_small n) by lia.
  rewrite (ToInt32_small x) by nia.
  rewrite Z.shiftl_mul_pow2 by lia. apply ToInt32_small. nia.
Qed.

Lemma or_small x y n :
  0 <= n -> x mod 2 ^ n = 0 -> 0 <= x -> 0 <= y < 2 ^ n ->
  x + y < 2 ^ 31 -> or x y = x + y.
Proof.
  intros Hn Hx Hx0 Hy Hb. unfold or.
  rewrite !ToInt32_small by lia. by apply (lor_disjoint x y n).
Qed.

Lemma ushr_0 x : 0 <= x < 2 ^ 32 -> ushr x 0 = x.
Proof.
  intros H. unfold ushr, ToUint32. rewrite (Z.mod_small x) by lia.
  apply Z.shiftr_0_r.
Qed.

Lemma idx_lookup buf i b :
  buf !! i = Some b -> idx buf (Z.of_nat i) = Some b.
Proof.
  intros H. unfold idx. destruct (Z.ltb_spec (Z.of_nat i) 0); [lia|].
  by rewrite Nat2Z.id.
Qed.

End JSFacts.

(** ** The counter encoding *)

Lemma numTo8ByteBE_be_bytes num : numTo8ByteBE num = Crypto.be_bytes 8 num.
Proof.
  unfold numTo8ByteBE, Crypto.be_bytes. simpl.
  rewrite !and_255, !Z.mod_mod by lia.
  rewrite !Z.div_div by lia. rewrite Z.div_1_r. reflexivity.
Qed.

Lemma be_value_be_bytes_8 c :
  0 <= c < 2 ^ 64 -> Crypto.be_value (Crypto.be_bytes 8 c) = c.
Proof.
  intros H. unfold Crypto.be_value, Crypto.be_bytes. simpl.
  Z.to_euclidean_division_equations. lia.
Qed.

(** ** Dynamic truncation of a 32-byte MAC *)

Lemma take_4_drop (buf : list Z) n a b c d :
  buf !! n = Some a -> buf !! S n = Some b ->
  buf !! S (S n) = Some c -> buf !! S (S (S n)) = Some d ->
  take 4 (drop n buf) = [a; b; c; d].
Proof.
  revert buf. induction n as [|n IH]; intros buf Ha Hb Hc Hd.
  - destruct buf as [|? [|? [|? [|? ?]]]]; simplify_eq/=. reflexivity.
  - destruct buf as [|x buf]; [done|]. simpl in *. by apply IH.
Qed.

Section Truncation.
Variable mac : list Z.
Hypothesis mac_length : length mac = 32%nat.
Hypothesis mac_bytes : Forall is_byte mac.

Lemma mac_lookup (i : nat) :
  (i < 32)%nat -> exists b, mac !! i = Some b /\ is_byte b.
Proof.
  intros Hi. destruct (lookup_lt_is_Some_2 mac i) as [b Hb]; [lia|].
  exists b. split; [done|].
  eapply Forall_forall in mac_bytes; [done|]. by eapply list_elem_of_lookup_2.
Qed.

(** The instrumented function on a MAC: the indices it reads and the
    value it returns, in arithmetic. *)
Lemma dynamicTruncateM_mac :
  exists last b0 b1 b2 b3 : Z,
    let offset := last mod 16 in
    mac !! 31%nat = Some last /\ is_byte last /\
    mac !! Z.to_nat offset = Some b0 /\ is_byte b0 /\
    mac !! Z.to_nat (offset + 1) = Some b1 /\ is_byte b1 /\
    mac !! Z.to_nat (offset + 2) = Some b2 /\ is_byte b2 /\
    mac !! Z.to_nat (offset + 3) = Some b3 /\ is_byte b3 /\
    reads (dynamicTruncateM mac)
      = [31; offset; offset + 1; offset + 2; offset + 3] /\
    val (dynamicTruncateM mac)
      = b0 mod 128 * 2 ^ 24 + b1 * 2 ^ 16 + b2 * 2 ^ 8 + b3.
Proof.
  destruct (mac_lookup 31) as (last & Hl & Bl); [lia|].
  assert (0 <= last mod 16 < 16) as Ho by (apply Z.mod_pos_bound; lia).
  destruct (mac_lookup (Z.to_nat (last mod 16))) as (b0 & H0 & B0); [lia|].
  destruct (mac_lookup (Z.to_nat (last mod 16 + 1))) as (b1 & H1 & B1); [lia|].
  destruct (mac_lookup (Z.to_nat (last mod 16 + 2))) as (b2 & H2 & B2); [lia|].
  destruct (mac_lookup (Z.to_nat (last mod 16 + 3))) as (b3 & H3 & B3); [lia|].
  exists last, b0, b1, b2, b3. cbv zeta.
  do 10 (split; [done|]).
  assert (forall i b, 0 <= i -> mac !! Z.to_nat i = Some b ->
                      JS.num (JS.idx mac i) = b) as Hrd.
  { intros i b Hi Hb. rewrite <- (Z2Nat.id i) by done.
    by rewrite (idx_lookup _ _ _ Hb). }
  assert (JS.and last 15 = last mod 16) as Hoff.
  { unfold is_byte in Bl. apply (and_low_bits last 4); lia. }
  unfold dynamicTruncateM, read, mbind, Acc_bind, mret, Acc_ret. simpl.
  rewrite mac_length. change (Z.of_nat 32 - 1) with 31.
  rewrite (Hrd 31 last) by done. rewrite Hoff.
  split; [done|].
  rewrite (Hrd _ b0), (Hrd _ b1), (Hrd _ b2), (Hrd _ b3) by (done || lia).
  unfold is_byte in *.
  assert (JS.and b0 127 = b0 mod 128) as ->
    by (apply (and_low_bits b0 7); lia).
  assert (0 <= b0 mod 128 < 128) by (apply Z.mod_pos_bound; lia).
  rewrite (shl_small _ 24), (shl_small b1 16), (shl_small b2 8) by lia.
  set (h := b0 mod 128) in *.
  rewrite (or_small (h * 2 ^ 24) (b1 * 2 ^ 16) 24);
    [|lia|Z.to_euclidean_division_equations; lia|lia..].
  rewrite (or_small (h * 2 ^ 24 + b1 * 2 ^ 16) (b2 * 2 ^ 8) 16);
    [|lia|Z.to_euclidean_division_equations; lia|lia..].
  rewrite (or_small (h * 2 ^ 24 + b1 * 2 ^ 16 + b2 * 2 ^ 8) b3 8);
    [|lia|Z.to_euclidean_division_equations; lia|lia..].
  apply ushr_0. lia.
Qed.

End Truncation.

(** ** Decimal numerals *)

Section Decimal.

Lemma digit_char_code m :
  0 <= m < 10 -> Z.of_nat (Ascii.nat_of_ascii (digit_char m)) = 48 + m.
Proof.
  intros H. unfold digit_char. rewrite Ascii.nat_ascii_embedding; lia.
Qed.

Lemma digit_char_is_digit m : 0 <= m < 10 -> is_digit (digit_char m) = true.
Proof.
  intros H. unfold is_digit. pose proof (digit_char_code m H) as E.
  apply andb_true_iff. split; apply Nat.leb_le; lia.
Qed.

Lemma zeros_cons j s : zeros j (String "0" s) = String "0" (zeros j s).
Proof. induction j as [|j IH]; simpl; [done|]. by rewrite IH. Qed.

Lemma zeros_length j s : String.length (zeros j s) = (j + String.length s)%nat.
Proof. induction j as [|j IH]; simpl; [done|]. by rewrite IH. Qed.

Lemma numeral_length d n acc :
  String.length (numeral d n acc) = (d + String.length acc)%nat.
Proof.
  revert n acc. induction d as [|d IH]; intros n acc; simpl; [done|].
  rewrite IH. simpl. lia.
Qed.

Lemma numeral_zero j acc : numeral j 0 acc = zeros j acc.
Proof.
  revert acc. induction j as [|j IH]; intros acc; simpl; [done|].
  rewrite IH. apply zeros_cons.
Qed.

(** Digits beyond the length of the number are zeros. *)
Lemma numeral_leading_zeros j k n acc :
  0 <= n < 10 ^ Z.of_nat k ->
  numeral (j + k) n acc = zeros j (numeral k n acc).
Proof.
  revert n acc. induction k as [|k IH]; intros n acc H.
  - assert (n = 0) as -> by (simpl in H; lia).
    rewrite Nat.add_0_r. apply numeral_zero.
  - rewrite Nat.add_succ_r. simpl. apply IH.
    rewrite Nat2Z.inj_succ, Z.pow_succ_r in H by lia.
    Z.to_euclidean_division_equations; nia.
Qed.

(** [String(n)] is the shortest numeral of [n]. *)
Lemma dec_digits_numeral fuel n acc :
  0 <= n < 2 ^ Z.of_nat (S fuel) ->
  exists k, (1 <= k)%nat /\ dec_digits (S fuel) n acc = numeral k n acc
            /\ n < 10 ^ Z.of_nat k
            /\ (k = 1%nat \/ 10 ^ Z.of_nat (k - 1) <= n).
Proof.
  revert n acc. induction fuel as [|fuel IH]; intros n acc H.
  - exists 1%nat. change (2 ^ Z.of_nat 1) with 2 in H.
    cbn [dec_digits]. destruct (Z.ltb_spec n 10); [|lia].
    repeat split; [done|simpl; lia|by left].
  - cbn [dec_digits]. destruct (Z.ltb_spec n 10) as [Hlt|Hge].
    + exists 1%nat. repeat split; [done|simpl; lia|by left].
    + rewrite Nat2Z.inj_succ, Z.pow_succ_r in H by lia.
      destruct (IH (n / 10) (String (digit_char (n mod 10)) acc))
        as (k & Hk & E & Hub & Hmin).
      { Z.to_euclidean_division_equations; lia. }
      exists (S k). split; [lia|]. split; [done|].
      replace (S k - 1)%nat with (S (k - 1)) by lia.
      rewrite !Nat2Z.inj_succ, !Z.pow_succ_r by lia.
      split; [Z.to_euclidean_division_equations; lia|]. right.
      destruct Hmin as [->|Hmin]; simpl.
      * lia.
      * Z.to_euclidean_division_equations; lia.
Qed.

Lemma Number_toString_numeral n :
  0 <= n ->
  exists k, (1 <= k)%nat /\ Number_toString n = numeral k n ""
            /\ n < 10 ^ Z.of_nat k
            /\ (k = 1%nat \/ 10 ^ Z.of_nat (k - 1) <= n).
Proof.
  intros H. apply dec_digits_numeral. split; [done|].
  rewrite Nat2Z.inj_succ, Z2Nat.id by apply Z.log2_nonneg.
  destruct (Z.eq_dec n 0) as [->|]; [done|].
  apply Z.log2_spec. lia.
Qed.

Lemma padStart0_numeral d n :
  (1 <= d)%nat -> 0 <= n < 10 ^ Z.of_nat d ->
  padStart0 d (Number_toString n) = numeral d n "".
Proof.
  intros Hd Hn.
  destruct (Number_toString_numeral n) as (k & Hk & -> & Hub & Hmin); [lia|].
  unfold padStart0. rewrite numeral_length. simpl.
  assert (k <= d)%nat as Hkd.
  { destruct Hmin as [->|Hmin]; [done|].
    destruct (Nat.le_gt_cases k d) as [|Hgt]; [done|].
    assert (10 ^ Z.of_nat d <= 10 ^ Z.of_nat (k - 1))
      by (apply Z.pow_le_mono_r; lia). lia. }
  rewrite Nat.add_0_r.
  replace d with ((d - k) + k)%nat at 2 by lia.
  symmetry. apply numeral_leading_zeros. lia.
Qed.

Lemma numeral_all_digits d n acc :
  all_digits (numeral d n acc) = all_digits acc.
Proof.
  revert n acc. induction d as [|d IH]; intros n acc; cbn [numeral]; [done|].
  rewrite IH. cbn [all_digits]. rewrite digit_char_is_digit; [done|].
  apply Z.mod_pos_bound. lia.
Qed.

Lemma numeral_value d n acc v :
  dec_value_from v (numeral d n acc)
  = dec_value_from (v * 10 ^ Z.of_nat d + n mod 10 ^ Z.of_nat d) acc.
Proof.
  revert n acc v. induction d as [|d IH]; intros n acc v.
  - simpl. f_equal. rewrite Z.mod_1_r. lia.
  - cbn [numeral]. rewrite IH. cbn [dec_value_from].
    rewrite digit_char_code by (apply Z.mod_pos_bound; lia).
    f_equal. rewrite Nat2Z.inj_succ, Z.pow_succ_r by lia.
    rewrite (Z.rem_mul_r n 10 (10 ^ Z.of_nat d)) by lia. lia.
Qed.

(** A fixed-width numeral: its length, its characters and its value. *)
Lemma numeral_spec d n :
  0 <= n < 10 ^ Z.of_nat d ->
  String.length (numeral d n "") = d
  /\ all_digits (numeral d n "") = true
  /\ dec_value (numeral d n "") = n.
Proof.
  intros H. rewrite numeral_length, numeral_all_digits.
  unfold dec_value. rewrite numeral_value. simpl.
  rewrite Z.mod_small by done. repeat split; lia.
Qed.

End Decimal.

(** ** The code generator *)

Lemma mac_of_length seed counter : length (mac_of seed counter) = 32%nat.
Proof. apply hmac_sha256_length. Qed.

Lemma mac_of_is_byte seed counter : Forall is_byte (mac_of seed counter).
Proof. apply hmac_sha256_is_byte. Qed.

Lemma dynamicTruncate_range mac :
  length mac = 32%nat -> Forall is_byte mac ->
  0 <= dynamicTruncate mac < 2 ^ 31.
Proof.
  intros Hlen Hbytes.
  destruct (dynamicTruncateM_mac mac Hlen Hbytes)
    as (l & b0 & b1 & b2 & b3 & _ & _ & _ & B0 & _ & B1 & _ & B2 & _ & B3 & _ & E).
  unfold dynamicTruncate. rewrite E. unfold is_byte in *.
  assert (0 <= b0 mod 128 < 128) by (apply Z.mod_pos_bound; lia). lia.
Qed.

Lemma dynamicTruncate_reference mac :
  length mac = 32%nat -> Forall is_byte mac ->
  dynamicTruncate mac = Reference.truncate mac.
Proof.
  intros Hlen Hbytes.
  destruct (dynamicTruncateM_mac mac Hlen Hbytes)
    as (l & b0 & b1 & b2 & b3 & Hl & Bl & H0 & B0 & H1 & B1 & H2 & B2
        & H3 & B3 & _ & E).
  unfold dynamicTruncate. rewrite E. unfold Reference.truncate.
  rewrite Hl. simpl default.
  assert (Z.land l 15 = l mod 16) as -> by (apply (land_low_bits l 4); lia).
  assert (0 <= l mod 16) by (apply Z.mod_pos_bound; lia).
  rewrite (take_4_drop mac _ b0 b1 b2 b3); try done.
  - assert (Z.land b0 127 = b0 mod 128) as ->
      by (apply (land_low_bits b0 7); lia).
    unfold Crypto.be_value. simpl. lia.
  - rewrite <- H1. f_equal. lia.
  - rewrite <- H2. f_equal. lia.
  - rewrite <- H3. f_equal. lia.
Qed.

Lemma totpForCounter_numeral seed counter digits :
  (1 <= digits)%nat ->
  totpForCounter seed counter digits
  = numeral digits
      (dynamicTruncate (mac_of seed counter) mod 10 ^ Z.of_nat digits) "".
Proof.
  intros Hd. unfold totpForCounter. fold (mac_of seed counter).
  pose proof (dynamicTruncate_range _ (mac_of_length seed counter)
                (mac_of_is_byte seed counter)) as Hbin.
  assert (0 < 10 ^ Z.of_nat digits) by lia.
  rewrite Z.rem_mod_nonneg by lia.
  apply padStart0_numeral; [done|]. apply Z.mod_pos_bound. lia.
Qed.

(** Every generated code of the handler has six characters. *)
Lemma totpForCounter_6_length seed counter :
  String.length (totpForCounter seed counter 6) = 6%nat.
Proof.
  rewrite totpForCounter_numeral by lia. by rewrite numeral_length.
Qed.

(** C5: [totpForCounter] computes the HOTP-style reference definition:
    for every seed, every counter that is at least 0 and every number of
    digits it returns the string that [Reference.computeCode] defines
    (SHA-256 key, HMAC-SHA256 of the 8-byte big-endian counter, offset
    mac[31] & 0x0F, the masked 31-bit big-endian value, its residue modulo
    10^digits in decimal, zero-padded to [digits] characters). *)
Theorem totpForCounter_reference (seed : string) (counter : Z) (digits : nat) :
  0 <= counter ->
  totpForCounter seed counter digits
  = Reference.computeCode seed counter digits.
Proof.
  intros _. unfold totpForCounter, Reference.computeCode.
  fold (mac_of seed counter).
  pose proof (dynamicTruncate_range _ (mac_of_length seed counter)
                (mac_of_is_byte seed counter)) as Hbin.
  rewrite <- (dynamicTruncate_reference
                (Crypto.hmac_sha256 _ (Crypto.be_bytes 8 counter))).
  - rewrite <- numTo8ByteBE_be_bytes.
    change (Crypto.hmac_sha256 (Crypto.sha256 (textToBytes seed))
              (numTo8ByteBE counter)) with (mac_of seed counter).
    assert (0 < 10 ^ Z.of_nat digits) by lia.
    by rewrite Z.rem_mod_nonneg by lia.
  - apply hmac_sha256_length.
  - apply hmac_sha256_is_byte.
Qed.

Lemma totpForCounter_reference_witness :
  0 <= 1000 /\
  totpForCounter "test-seed" 1000 6 = Reference.computeCode "test-seed" 1000 6.
Proof.
  split; [lia|]. apply (totpForCounter_reference "test-seed" 1000 6). lia.
Defined.

(** The shape of a generated code. *)
Lemma totpForCounter_shape seed counter digits :
  (1 <= digits)%nat ->
  exists v : Z,
    0 <= v < 10 ^ Z.of_nat digits /\
    totpForCounter seed counter digits = numeral digits v "" /\
    String.length (totpForCounter seed counter digits) = digits /\
    all_digits (totpForCounter seed counter digits) = true /\
    dec_value (totpForCounter seed counter digits) = v.
Proof.
  intros Hd. rewrite totpForCounter_numeral by done.
  set (v := dynamicTruncate (mac_of seed counter) mod 10 ^ Z.of_nat digits).
  assert (0 <= v < 10 ^ Z.of_nat digits) as Hv
    by (apply Z.mod_pos_bound; lia).
  destruct (numeral_spec digits v Hv) as (Hlen & Hdig & Hval).
  by exists v.
Qed.

(** C7: for every seed, every counter and every number of digits from 1
    to 9, [totpForCounter] returns a string of exactly [digits] characters,
    all of them decimal digits: the zero-padded numeral of a value [v] with
    [0 <= v < 10 ^ digits]. *)
Theorem totpForCounter_fixed_width (seed : string) (counter : Z) (digits : nat) :
  (1 <= digits <= 9)%nat ->
  let code := totpForCounter seed counter digits in
  String.length code = digits /\
  exists v : Z,
    0 <= v < 10 ^ Z.of_nat digits /\
    code = padStart0 digits (Number_toString v) /\
    code = numeral digits v "" /\
    all_digits code = true /\
    dec_value code = v.
Proof.
  intros [Hd _]. cbv zeta.
  destruct (totpForCounter_shape seed counter digits Hd)
    as (v & Hv & Hnum & Hlen & Hdig & Hval).
  split; [done|]. exists v. split; [done|].
  rewrite padStart0_numeral by done. done.
Qed.

Lemma totpForCounter_fixed_width_witness :
  (1 <= 6 <= 9)%nat /\
  String.length (totpForCounter "test-seed" 1000 6) = 6%nat /\
  exists v : Z,
    0 <= v < 10 ^ Z.of_nat 6 /\
    totpForCounter "test-seed" 1000 6 = padStart0 6 (Number_toString v) /\
    totpForCounter "test-seed" 1000 6 = numeral 6 v "" /\
    all_digits (totpForCounter "test-seed" 1000 6) = true /\
    dec_value (totpForCounter "test-seed" 1000 6) = v.
Proof.
  split; [lia|]. apply (totpForCounter_fixed_width "test-seed" 1000 6). lia.
Defined.

(** C8: for every seed and counter the MAC that [totpForCounter] hands to
    [dynamicTruncate] has 32 bytes; the offset [mac[31] & 0x0f] is at most
    15; the function reads index 31 and the four indices [offset] to
    [offset + 3], which are at most 18; every read is inside the buffer
    (none yields [undefined]). *)
Theorem dynamicTruncate_in_bounds (seed : string) (counter : Z) :
  let mac := hmacSha256 (deriveKeyBytes seed) (numTo8ByteBE counter) in
  length mac = 32%nat /\
  exists offset : Z,
    offset = JS.and (JS.num (JS.idx mac 31)) 15 /\
    0 <= offset <= 15 /\
    reads (dynamicTruncateM mac)
      = [31; offset; offset + 1; offset + 2; offset + 3] /\
    offset + 3 <= 18 < Z.of_nat (length mac) /\
    Forall (in_bounds mac) (reads (dynamicTruncateM mac)) /\
    Forall (fun i => is_Some (JS.idx mac i)) (reads (dynamicTruncateM mac)).
Proof.
  cbv zeta. fold (mac_of seed counter).
  pose proof (mac_of_length seed counter) as Hlen.
  destruct (dynamicTruncateM_mac _ Hlen (mac_of_is_byte seed counter))
    as (l & b0 & b1 & b2 & b3 & Hl & Bl & H0 & B0 & H1 & B1 & H2 & B2
        & H3 & B3 & Hreads & _).
  split; [done|]. exists (l mod 16).
  assert (0 <= l mod 16 < 16) as Ho by (apply Z.mod_pos_bound; lia).
  rewrite Hreads, Hlen.
  split.
  { pose proof (idx_lookup _ 31 _ Hl) as Hi.
    change (Z.of_nat 31) with 31 in Hi. rewrite Hi. simpl JS.num. symmetry.
    unfold is_byte in Bl. apply (and_low_bits l 4); lia. }
  split; [lia|]. split; [done|]. split; [lia|]. split.
  - unfold in_bounds. rewrite Hlen. repeat constructor; lia.
  - assert (forall i b, 0 <= i -> mac_of seed counter !! Z.to_nat i = Some b ->
                        is_Some (JS.idx (mac_of seed counter) i)) as Hsome.
    { intros i b Hi Hb. rewrite <- (Z2Nat.id i) by done.
      rewrite (idx_lookup _ _ _ Hb). eauto. }
    repeat constructor; eapply Hsome; (done || lia).
Qed.

(** ** The table *)

Section DbFacts.
Import Db.

Lemma select_used_app db l w s :
  select_used (db ++ l) w s = select_used db w s || select_used l w s.
Proof. apply existsb_app. Qed.

Lemma count_app db l w s : count (db ++ l) w s = (count db w s + count l w s)%nat.
Proof. unfold count. by rewrite List.filter_app, length_app. Qed.

Lemma count_unused db w s : select_used db w s = false -> count db w s = 0%nat.
Proof.
  unfold select_used, count. induction db as [|r db IH]; simpl; [done|].
  intros [Hr Hdb]%orb_false_iff. rewrite Hr. by apply IH.
Qed.

Lemma has_key_self r : has_key (window r) (sid r) r = true.
Proof. unfold has_key. by rewrite Z.eqb_refl, String.eqb_refl. Qed.

Lemma has_key_eq w s w' s' r :
  has_key w s r = true -> has_key w' s' r = true -> w = w' /\ s = s'.
Proof.
  unfold has_key. intros [H1 H2]%andb_true_iff [H3 H4]%andb_true_iff.
  apply Z.eqb_eq in H1, H3. apply String.eqb_eq in H2, H4. by subst.
Qed.

Lemma insert_or_ignore_fresh db r :
  select_used db (window r) (sid r) = false ->
  insert_or_ignore db r = (db ++ [r], 1).
Proof. intros H. unfold insert_or_ignore. by rewrite H. Qed.

Lemma insert_or_ignore_present db r :
  select_used db (window r) (sid r) = true ->
  insert_or_ignore db r = (db, 0).
Proof. intros H. unfold insert_or_ignore. by rewrite H. Qed.

(** Rows are only ever appended. *)
Lemma insert_or_ignore_extends db r :
  exists new, (insert_or_ignore db r).1 = db ++ new.
Proof.
  unfold insert_or_ignore. destruct (select_used _ _ _); simpl.
  - exists []. by rewrite app_nil_r.
  - by exists [r].
Qed.

Lemma unique_keys_nil : unique_keys [].
Proof. intros w s. unfold count. simpl. lia. Qed.

(** [INSERT OR IGNORE] keeps the primary key unique. *)
Lemma insert_or_ignore_unique_keys db r :
  unique_keys db -> unique_keys (insert_or_ignore db r).1.
Proof.
  intros Hdb. unfold insert_or_ignore.
  destruct (select_used db (window r) (sid r)) eqn:Hsel; simpl; [done|].
  intros w s. rewrite count_app. unfold count at 2. simpl.
  destruct (has_key w s r) eqn:Hk; simpl.
  - destruct (has_key_eq _ _ _ _ _ Hk (has_key_self r)) as [-> ->].
    rewrite (count_unused _ _ _ Hsel). lia.
  - specialize (Hdb w s). lia.
Qed.

End DbFacts.

(** ** The handler, case by case *)

Lemma passes_check_iff code :
  (falsy code || negb (is_string code) || (js_length code <? 6)) = false
  <-> passes_check code.
Proof.
  unfold passes_check. split.
  - destruct code as [| | | |s|]; simpl; try discriminate.
    + by destruct b.
    + by rewrite orb_true_r.
    + intros [_ H]%orb_false_iff. exists s. split; [done|].
      apply Z.ltb_ge in H. lia.
  - intros (s & -> & Hlen). simpl. rewrite orb_false_r.
    apply orb_false_iff. split.
    + destruct s; [simpl in Hlen; lia | done].
    + apply Z.ltb_ge. lia.
Qed.

Lemma verify_cases cfg db sid code now now' :
  verify_spec cfg db sid code now now' (verify cfg db sid code now now').
Proof.
  unfold verify, verify_code.
  destruct (falsy code || negb (is_string code) || (js_length code <? 6))
    eqn:Hbad.
  { apply VInvalidInput. intros Hp%passes_check_iff. congruence. }
  apply passes_check_iff in Hbad.
  destruct (String.eqb (PROCTOR_SEED cfg) "") eqn:Hseed.
  { apply VMisconfigured; [done|]. by apply String.eqb_eq. }
  apply String.eqb_neq in Hseed.
  change (window (validCodes cfg (PROCTOR_SEED cfg) now))
    with (win_of cfg now).
  cbn [run]. destruct (Db.select_used db (win_of cfg now) sid) eqn:Hsel.
  { by apply VAlreadyUsed. }
  destruct (includes (codes (validCodes cfg (PROCTOR_SEED cfg) now)) code)
    eqn:Hinc; cbn [negb run].
  - rewrite insert_or_ignore_fresh by done. cbn [run out db_after trace].
    by apply VAccepted.
  - by apply VInvalidCode.
Qed.


(** Serving requests only appends rows. *)
Lemma serve_extends cfg db r : exists new, serve cfg db r = db ++ new.
Proof.
  unfold serve.
  destruct (verify_cases cfg db (req_sid r) (req_code r) (req_now r)
              (req_now' r)); simpl; try (exists []; by rewrite app_nil_r).
  by eexists.
Qed.

Lemma serve_all_extends cfg rs db : exists new, serve_all cfg db rs = db ++ new.
Proof.
  revert db. induction rs as [|r rs IH]; intros db; simpl.
  - exists []. by rewrite app_nil_r.
  - destruct (serve_extends cfg db r) as [n1 ->].
    destruct (IH (db ++ n1)) as [n2 ->]. exists (n1 ++ n2).
    by rewrite app_assoc.
Qed.





Lemma valid_code_passes_check cfg seed now C :
  C ∈ codes (validCodes cfg seed now) -> passes_check (JString C).
Proof.
  intros H. exists C. split; [done|].
  apply list_elem_of_In in H. simpl in H.
  destruct H as [<-|[<-|[<-|[]]]]; by rewrite totpForCounter_6_length.
Qed.

(** What a request by a session that has consumed its window gets. *)
Lemma verify_used cfg db sid code now now' :
  PROCTOR_SEED cfg <> ""%string -> passes_check code ->
  Db.select_used db (win_of cfg now) sid = true ->
  verify cfg db sid code now now'
  = Result (AlreadyUsed (win_of cfg now) (exp_of cfg now)) db
           [ESelect (win_of cfg now) sid].
Proof.
  intros Hseed Hp Hsel.
  destruct (verify_cases cfg db sid code now now'); try done; congruence.
Qed.

(** What a request with a listed code by a session that has not consumed
    its window gets. *)
Lemma verify_fresh_valid cfg db sid C now now' :
  PROCTOR_SEED cfg <> ""%string ->
  C ∈ codes (validCodes cfg (PROCTOR_SEED cfg) now) ->
  Db.select_used db (win_of cfg now) sid = false ->
  verify cfg db sid (JString C) now now'
  = Result (Accepted (win_of cfg now) (exp_of cfg now))
           (db ++ [Db.Row (win_of cfg now) sid now'])
           [ESelect (win_of cfg now) sid; EInsert (win_of cfg now) sid now'].
Proof.
  intros Hseed HC Hsel.
  pose proof (valid_code_passes_check _ _ _ _ HC) as Hp.
  assert (includes (codes (validCodes cfg (PROCTOR_SEED cfg) now)) (JString C)
          = true) as Hinc by (by apply bool_decide_eq_true).
  destruct (verify_cases cfg db sid (JString C) now now'); try done; congruence.
Qed.




(** C4, as the code has it: [verify] returns InvalidInput exactly when
    the submitted [code] is not a string of at least six characters
    (missing, not a string, or shorter than 6); the answer is given before
    the seed, the table and the code list are consulted: no statement is
    issued and the table is unchanged, whatever the seed. *)
Theorem invalid_input_iff_short
    (cfg : config) (db : Db.table) (sid : string) (code : jsval)
    (now now' : Z) :
  let r := verify cfg db sid code now now' in
  (out r = InvalidInput <-> ~ passes_check code) /\
  (~ passes_check code -> r = Result InvalidInput db []).
Proof.
  cbv zeta.
  destruct (verify_cases cfg db sid code now now'); cbn [out];
    (split; [split|]); try done; intros; by exfalso.
Qed.

(** C4, the claim as stated fails: a seven-character string of letters,
    and a seven-digit string, pass the boundary check and are answered
    from the code list (InvalidCode), not with InvalidInput. *)
Lemma strict_width_check_counterexample :
  all_digits "abcdefg" = false /\
  String.length "abcdefg" = 7%nat /\
  out (verify cfg0 [] "s1" (JString "abcdefg") 30000000 30000000)
  = InvalidCode 1000 30 /\
  all_digits "1657740" = true /\
  String.length "1657740" = 7%nat /\
  out (verify cfg0 [] "s1" (JString "1657740") 30000000 30000000)
  = InvalidCode 1000 30.
Proof. vm_compute. done. Qed.



(** The code of window 999 presented in window 1000 is accepted and
    consumes window 1000. *)
Example neighbour_code_consumes_current_window :
  totpForCounter "test-seed" 999 6 = "729391"%string /\
  verify cfg0 [] "s1" (JString "729391") 30000000 30000001
  = Result (Accepted 1000 30) [Db.Row 1000 "s1" 30000001]
           [ESelect 1000 "s1"; EInsert 1000 "s1" 30000001].
Proof. vm_compute. done. Qed.

(** C9: every call of [verify] whose outcome is InvalidInput,
    ServerMisconfigured, AlreadyUsed or InvalidCode leaves the table as it
    was and issues no insert; an insert is issued only by an accepted
    call; and whatever the requests served, the rows that were in the
    table are still there, unchanged and in place: the new table is the
    old one followed by new rows. *)
Theorem ledger_changes_only_on_accept
    (cfg : config) (db : Db.table) (sid : string) (code : jsval)
    (now now' : Z) :
  let r := verify cfg db sid code now now' in
  ((out r = InvalidInput \/ out r = ServerMisconfigured \/
    (exists w e, out r = AlreadyUsed w e) \/
    (exists w e, out r = InvalidCode w e)) ->
   db_after r = db /\ Forall (fun e => is_insert e = false) (trace r)) /\
  (Exists (fun e => is_insert e = true) (trace r) ->
   is_accepted (out r) = true) /\
  (db_after r <> db -> is_accepted (out r) = true) /\
  (exists new, db_after r = db ++ new) /\
  (forall rs : list request, exists new, serve_all cfg db rs = db ++ new).
Proof.
  cbv zeta. split; [|split; [|split; [|split]]].
  - destruct (verify_cases cfg db sid code now now');
      cbn [out db_after trace]; intros Hout;
      try (split; [done|repeat constructor]).
    destruct Hout as [?|[?|[(?&?&?)|(?&?&?)]]]; discriminate.
  - destruct (verify_cases cfg db sid code now now'); cbn [out trace];
      try done; intros He; exfalso;
      repeat (apply Exists_cons in He as [He|He]; [discriminate|]);
      by apply Exists_nil in He.
  - destruct (verify_cases cfg db sid code now now'); cbn [out db_after];
      done.
  - apply (serve_extends cfg db (Request sid code now now')).
  - intros rs. apply serve_all_extends.
Qed.



(** ** Interleaved handlers *)

Lemma verify_code_checked cfg sid code now now' :
  passes_check code -> PROCTOR_SEED cfg <> ""%string ->
  verify_code cfg sid code now now'
  = Select (win_of cfg now) sid (fun check =>
      if check then Ret (AlreadyUsed (win_of cfg now) (exp_of cfg now))
      else if negb (includes (codes (validCodes cfg (PROCTOR_SEED cfg) now))
                      code)
      then Ret (InvalidCode (win_of cfg now) (exp_of cfg now))
      else InsertOrIgnore (win_of cfg now) sid now' (fun _ =>
             Ret (Accepted (win_of cfg now) (exp_of cfg now)))).
Proof.
  intros Hp%passes_check_iff Hseed%String.eqb_neq.
  unfold verify_code. by rewrite Hp, Hseed.
Qed.

(** Running a handler to completion is stepping it, alone, until it
    returns. *)
Lemma run_as_steps {A} (p : prog A) (db : Db.table) :
  exists n : nat,
    interleave (replicate n 0%nat) [p] db
    = ([Ret (out (run p db))], db_after (run p db)).
Proof.
  revert db. induction p as [a|w s k IH|w s t k IH]; intros db.
  - by exists 0%nat.
  - destruct (IH (Db.select_used db w s) db) as [n Hn].
    exists (S n). cbn [replicate interleave]. simpl lookup. cbn [step].
    simpl insert. rewrite Hn. reflexivity.
  - cbn [run].
    destruct (Db.insert_or_ignore db (Db.Row w s t)) as [db' changes] eqn:Hi.
    destruct (IH changes db') as [n Hn].
    exists (S n). cbn [replicate interleave]. simpl lookup. cbn [step].
    rewrite Hi. simpl insert. rewrite Hn. reflexivity.
Qed.

(** Served one after the other, two requests with a listed code for the
    same unconsumed (window, session) get Accepted and AlreadyUsed. *)
Lemma one_after_the_other cfg db sid C1 C2 now1 now1' now2 now2' :
  PROCTOR_SEED cfg <> ""%string ->
  C1 ∈ codes (validCodes cfg (PROCTOR_SEED cfg) now1) ->
  C2 ∈ codes (validCodes cfg (PROCTOR_SEED cfg) now2) ->
  win_of cfg now2 = win_of cfg now1 ->
  Db.select_used db (win_of cfg now1) sid = false ->
  let r1 := verify cfg db sid (JString C1) now1 now1' in
  let r2 := verify cfg (db_after r1) sid (JString C2) now2 now2' in
  out r1 = Accepted (win_of cfg now1) (exp_of cfg now1) /\
  out r2 = AlreadyUsed (win_of cfg now1) (exp_of cfg now2) /\
  db_after r2 = db ++ [Db.Row (win_of cfg now1) sid now1'].
Proof.
  intros Hseed H1 H2 Hw Hsel. cbv zeta.
  rewrite (verify_fresh_valid cfg db sid C1) by done. cbn [out db_after].
  rewrite verify_used; rewrite ?Hw; try done.
  - by eapply valid_code_passes_check.
  - rewrite select_used_app. apply orb_true_iff. right.
    pose proof (has_key_self (Db.Row (win_of cfg now1) sid now1')) as Hk.
    cbn [Db.window Db.sid] in Hk.
    unfold Db.select_used. cbn [existsb]. by rewrite Hk.
Qed.

(** When both lookups run before either insert, both handlers return
    Accepted, and one row is written. *)
Lemma interleaved_double_accept cfg db sid C now now1' now2' :
  PROCTOR_SEED cfg <> ""%string ->
  C ∈ codes (validCodes cfg (PROCTOR_SEED cfg) now) ->
  Db.select_used db (win_of cfg now) sid = false ->
  interleave [0; 1; 0; 1]%nat
    [verify_code cfg sid (JString C) now now1';
     verify_code cfg sid (JString C) now now2'] db
  = ([Ret (Accepted (win_of cfg now) (exp_of cfg now));
      Ret (Accepted (win_of cfg now) (exp_of cfg now))],
     db ++ [Db.Row (win_of cfg now) sid now1']).
Proof.
  intros Hseed HC Hsel.
  pose proof (valid_code_passes_check _ _ _ _ HC) as Hp.
  assert (includes (codes (validCodes cfg (PROCTOR_SEED cfg) now)) (JString C)
          = true) as Hinc by (by apply bool_decide_eq_true).
  rewrite !verify_code_checked by done. rewrite Hinc. cbn [negb].
  generalize (win_of cfg now) (exp_of cfg now) Hsel. clear.
  intros w e Hsel.
  cbn [interleave]. simpl lookup. cbn [step]. simpl insert.
  rewrite Hsel. simpl lookup. cbn [step].
  rewrite (insert_or_ignore_fresh db (Db.Row w sid now1')) by done.
  rewrite insert_or_ignore_present; [done|].
  cbn [Db.window Db.sid]. rewrite select_used_app. apply orb_true_iff. right.
  pose proof (has_key_self (Db.Row w sid now1')) as Hk.
  cbn [Db.window Db.sid] in Hk.
  unfold Db.select_used. cbn [existsb]. by rewrite Hk.
Qed.

(** The table keeps its key unique under every interleaving. *)
Lemma step_unique_keys {A} (p : prog A) db :
  Db.unique_keys db -> Db.unique_keys (step p db).2.
Proof.
  intros H. destruct p as [a|w s k|w s t k]; cbn [step]; try done.
  pose proof (insert_or_ignore_unique_keys db (Db.Row w s t) H) as Hi.
  by destruct (Db.insert_or_ignore db (Db.Row w s t)).
Qed.

Lemma interleave_unique_keys {A} sched (ps : list (prog A)) db :
  Db.unique_keys db -> Db.unique_keys (interleave sched ps db).2.
Proof.
  revert ps db. induction sched as [|i sched IH]; intros ps db H; [done|].
  cbn [interleave]. destruct (ps !! i) as [p|]; [|by apply IH].
  pose proof (step_unique_keys p db H) as Hs.
  destruct (step p db) as [p' db']. by apply IH.
Qed.

(** C2: two handlers for the same fresh (window, session) and the same
    correct code.  Run one after the other they return Accepted and
    AlreadyUsed.  Interleaved at the statements, with both SELECTs before
    either INSERT OR IGNORE, both return Accepted: the lookup and the
    insert are two statements, and the handler does not look at whether
    its insert changed a row.  One row is written in both schedules. *)
Theorem race_double_accept :
  let h1 := verify_code cfg0 "s1" (JString "165774") 30000000 30000001 in
  let h2 := verify_code cfg0 "s1" (JString "165774") 30000000 30000002 in
  Db.select_used [] 1000 "s1" = false /\
  interleave [0; 0; 1; 1]%nat [h1; h2] []
  = ([Ret (Accepted 1000 30); Ret (AlreadyUsed 1000 30)],
     [Db.Row 1000 "s1" 30000001]) /\
  interleave [0; 1; 0; 1]%nat [h1; h2] []
  = ([Ret (Accepted 1000 30); Ret (Accepted 1000 30)],
     [Db.Row 1000 "s1" 30000001]).
Proof. vm_compute. done. Qed.

(** ** The list of accepted codes *)

(** For a drift of 0 or 1 the three listed codes are those of all the
    windows from [w - drift] to [w + drift]. *)
Lemma validCodes_range_drift_le_1 cfg seed now s :
  0 <= DRIFT_STEPS cfg <= 1 ->
  s ∈ codes (validCodes cfg seed now)
  <-> exists c, win_of cfg now - DRIFT_STEPS cfg <= c
                <= win_of cfg now + DRIFT_STEPS cfg
                /\ s = totpForCounter seed c 6.
Proof.
  intros Hd. rewrite list_elem_of_In. cbn [validCodes codes In].
  fold (win_of cfg now). split.
  - intros [<-|[<-|[<-|[]]]]; eexists; (split; [|done]); lia.
  - intros (c & Hc & ->).
    assert (c = win_of cfg now - DRIFT_STEPS cfg \/ c = win_of cfg now
            \/ c = win_of cfg now + DRIFT_STEPS cfg) as [-> | [-> | ->]] by lia;
      auto.
Qed.

(** C3: with a drift of 2 the handler lists the codes of the windows
    [w - 2], [w] and [w + 2] only.  At window 1000 the code of window
    999, which lies between 998 and 1002, is not listed, and a fresh
    session that presents it is answered InvalidCode. *)
Theorem drift_2_skips_adjacent_windows :
  win_of cfg_drift2 30000000 = 1000 /\
  codes (validCodes cfg_drift2 "test-seed" 30000000)
  = [totpForCounter "test-seed" 998 6; totpForCounter "test-seed" 1000 6;
     totpForCounter "test-seed" 1002 6] /\
  codes (validCodes cfg_drift2 "test-seed" 30000000)
  = ["596932"; "165774"; "500093"]%string /\
  1000 - DRIFT_STEPS cfg_drift2 <= 999 <= 1000 + DRIFT_STEPS cfg_drift2 /\
  totpForCounter "test-seed" 999 6 = "729391"%string /\
  includes (codes (validCodes cfg_drift2 "test-seed" 30000000))
           (JString "729391") = false /\
  out (verify cfg_drift2 [] "s1" (JString "729391") 30000000 30000000)
  = InvalidCode 1000 30.
Proof. vm_compute. split_and!; (done || lia). Qed.

(** * Further properties of the code *)

(** ** The window clock *)

(** X1: for a positive step, [currentWindow] never decreases as the clock
    advances. *)
Theorem currentWindow_monotone (stepSec now1 now2 : Z) :
  0 < stepSec -> now1 <= now2 ->
  currentWindow now1 stepSec <= currentWindow now2 stepSec.
Proof.
  intros Hs Hn. unfold currentWindow.
  apply Z.div_le_mono; [done|]. apply Z.div_le_mono; lia.
Qed.

Lemma currentWindow_monotone_witness :
  0 < 30 /\ 29999999 <= 30000000 /\
  currentWindow 29999999 30 <= currentWindow 30000000 30.
Proof.
  split; [lia|]. split; [lia|].
  apply (currentWindow_monotone 30 29999999 30000000); lia.
Defined.





(** ** The counter bytes *)

(** X4: [numTo8ByteBE] writes eight bytes that are the big-endian 64-bit
    two's-complement encoding of its argument: read back as an unsigned
    integer they give the argument modulo 2^64.  So a counter from 0 to
    2^64 - 1 is read back unchanged, and a negative counter [-k] encodes
    as [2^64 - k]. *)
Lemma be_value_be_bytes_8_mod c :
  Crypto.be_value (Crypto.be_bytes 8 c) = c mod 2 ^ 64.
Proof.
  assert (forall d0 d1 d2 d3 d4 d5 d6 d7 d8 b0 b1 b2 b3 b4 b5 b6 b7 : Z,
            d0 = 256 * d1 + b0 -> d1 = 256 * d2 + b1 ->
            d2 = 256 * d3 + b2 -> d3 = 256 * d4 + b3 ->
            d4 = 256 * d5 + b4 -> d5 = 256 * d6 + b5 ->
            d6 = 256 * d7 + b6 -> d7 = 256 * d8 + b7 ->
            (((((((0 * 256 + b7) * 256 + b6) * 256 + b5) * 256 + b4) * 256
                + b3) * 256 + b2) * 256 + b1) * 256 + b0
            = d0 - 2 ^ 64 * d8) as Hlin by (intros; lia).
  assert (forall k, 0 <= k ->
            c / 256 ^ k = 256 * (c / 256 ^ (k + 1)) + (c / 256 ^ k) mod 256)
    as Hk.
  { intros k Hk. rewrite Z.pow_add_r, <- Z.div_div by lia.
    change (256 ^ 1) with 256. apply Z.div_mod. lia. }
  transitivity (c / 256 ^ 0 - 2 ^ 64 * (c / 256 ^ 8)).
  - apply (Hlin (c / 256 ^ 0) (c / 256 ^ 1) (c / 256 ^ 2) (c / 256 ^ 3)
             (c / 256 ^ 4) (c / 256 ^ 5) (c / 256 ^ 6) (c / 256 ^ 7)
             (c / 256 ^ 8));
      [apply (Hk 0)|apply (Hk 1)|apply (Hk 2)|apply (Hk 3)|apply (Hk 4)
      |apply (Hk 5)|apply (Hk 6)|apply (Hk 7)]; lia.
  - change (256 ^ 0) with 1. change (256 ^ 8) with (2 ^ 64).
    rewrite Z.div_1_r. pose proof (Z.div_mod c (2 ^ 64) ltac:(lia)). lia.
Qed.

Theorem numTo8ByteBE_value (num : Z) :
  length (numTo8ByteBE num) = 8%nat /\
  Forall is_byte (numTo8ByteBE num) /\
  Crypto.be_value (numTo8ByteBE num) = num mod 2 ^ 64.
Proof.
  rewrite numTo8ByteBE_be_bytes.
  split; [apply be_bytes_length|]. split; [apply be_bytes_is_byte|].
  apply be_value_be_bytes_8_mod.
Qed.

(** X5: two different counters from 0 to 2^64 - 1 never get the same
    eight bytes: different windows give different HMAC messages. *)
Theorem numTo8ByteBE_injective (c1 c2 : Z) :
  0 <= c1 < 2 ^ 64 -> 0 <= c2 < 2 ^ 64 -> c1 <> c2 ->
  numTo8ByteBE c1 <> numTo8ByteBE c2.
Proof.
  intros H1 H2 Hne E. apply Hne.
  rewrite <- (Z.mod_small c1 (2 ^ 64)), <- (Z.mod_small c2 (2 ^ 64)) by done.
  rewrite <- !be_value_be_bytes_8_mod, <- !numTo8ByteBE_be_bytes.
  by rewrite E.
Qed.

Lemma numTo8ByteBE_injective_witness :
  0 <= 999 < 2 ^ 64 /\ 0 <= 1000 < 2 ^ 64 /\ 999 <> 1000 /\
  numTo8ByteBE 999 <> numTo8ByteBE 1000.
Proof.
  split; [lia|]. split; [lia|]. split; [lia|].
  apply (numTo8ByteBE_injective 999 1000); lia.
Defined.

(** ** Truncation of any buffer *)

Lemma num_idx_is_byte buf i :
  Forall is_byte buf -> is_byte (JS.num (JS.idx buf i)).
Proof.
  intros Hb. unfold JS.idx. destruct (i <? 0); [unfold is_byte; simpl; lia|].
  destruct (buf !! Z.to_nat i) as [b|] eqn:E; simpl.
  - eapply Forall_forall in Hb; [done|]. by eapply list_elem_of_lookup_2.
  - unfold is_byte. lia.
Qed.

Lemma truncate_bits b0 b1 b2 b3 :
  is_byte b0 -> is_byte b1 -> is_byte b2 -> is_byte b3 ->
  JS.ushr
    (JS.or (JS.or (JS.or (JS.shl (JS.and b0 127) 24) (JS.shl b1 16))
                  (JS.shl b2 8)) b3) 0
  = b0 mod 128 * 2 ^ 24 + b1 * 2 ^ 16 + b2 * 2 ^ 8 + b3.
Proof.
  unfold is_byte. intros B0 B1 B2 B3.
  assert (JS.and b0 127 = b0 mod 128) as ->
    by (apply (and_low_bits b0 7); lia).
  assert (0 <= b0 mod 128 < 128) by (apply Z.mod_pos_bound; lia).
  rewrite (shl_small _ 24), (shl_small b1 16), (shl_small b2 8) by lia.
  set (h := b0 mod 128) in *.
  rewrite (or_small (h * 2 ^ 24) (b1 * 2 ^ 16) 24);
    [|lia|Z.to_euclidean_division_equations; lia|lia..].
  rewrite (or_small (h * 2 ^ 24 + b1 * 2 ^ 16) (b2 * 2 ^ 8) 16);
    [|lia|Z.to_euclidean_division_equations; lia|lia..].
  rewrite (or_small (h * 2 ^ 24 + b1 * 2 ^ 16 + b2 * 2 ^ 8) b3 8);
    [|lia|Z.to_euclidean_division_equations; lia|lia..].
  apply ushr_0. lia.
Qed.

(** X6: on every buffer of bytes, of any length, [dynamicTruncate]
    returns an integer from 0 to 2^31 - 1: a read outside the buffer
    counts as 0, the top bit is masked, and [>>> 0] keeps the result
    unsigned.  It always reads five indices; on the empty buffer these
    are -1, 0, 1, 2 and 3, all outside, and the result is 0. *)
Theorem dynamicTruncate_any_buffer (hmacBuf : list Z) :
  Forall is_byte hmacBuf ->
  0 <= dynamicTruncate hmacBuf < 2 ^ 31 /\
  length (reads (dynamicTruncateM hmacBuf)) = 5%nat /\
  (hmacBuf = [] -> dynamicTruncate hmacBuf = 0 /\
                   reads (dynamicTruncateM hmacBuf) = [-1; 0; 1; 2; 3]).
Proof.
  intros Hb. split; [|split; [done|]].
  - unfold dynamicTruncate, dynamicTruncateM, read, mbind, Acc_bind, mret,
      Acc_ret. cbn [val].
    rewrite truncate_bits by apply num_idx_is_byte, Hb.
    pose proof (num_idx_is_byte hmacBuf
      (JS.and (JS.num (JS.idx hmacBuf (Z.of_nat (length hmacBuf) - 1))) 15) Hb).
    pose proof (num_idx_is_byte hmacBuf
      (JS.and (JS.num (JS.idx hmacBuf (Z.of_nat (length hmacBuf) - 1))) 15 + 1)
      Hb).
    pose proof (num_idx_is_byte hmacBuf
      (JS.and (JS.num (JS.idx hmacBuf (Z.of_nat (length hmacBuf) - 1))) 15 + 2)
      Hb).
    pose proof (num_idx_is_byte hmacBuf
      (JS.and (JS.num (JS.idx hmacBuf (Z.of_nat (length hmacBuf) - 1))) 15 + 3)
      Hb).
    unfold is_byte in *.
    match goal with |- context [?b mod 128] =>
      assert (0 <= b mod 128 < 128) by (apply Z.mod_pos_bound; lia) end.
    lia.
  - intros ->. by vm_compute.
Qed.

Lemma dynamicTruncate_any_buffer_witness :
  Forall is_byte [255; 1; 2] /\
  0 <= dynamicTruncate [255; 1; 2] < 2 ^ 31.
Proof.
  assert (Forall is_byte [255; 1; 2]) as H
    by (repeat constructor; unfold is_byte; lia).
  split; [exact H|]. apply (dynamicTruncate_any_buffer [255; 1; 2] H).
Defined.

(** ** The number of digits *)

Lemma numeral_mod d n acc : numeral d n acc = numeral d (n mod 10 ^ Z.of_nat d) acc.
Proof.
  revert n acc. induction d as [|d IH]; intros n acc; [done|].
  cbn [numeral]. rewrite Nat2Z.inj_succ, Z.pow_succ_r by lia.
  set (P := 10 ^ Z.of_nat d). assert (0 < P) by (unfold P; lia).
  rewrite (Z.rem_mul_r n 10 P) by lia.
  pose proof (Z.mod_pos_bound n 10 ltac:(lia)) as Hr.
  assert ((n mod 10 + 10 * ((n / 10) mod P)) mod 10 = n mod 10) as ->.
  { rewrite Z.mul_comm, Z_mod_plus_full. apply Z.mod_mod. lia. }
  assert ((n mod 10 + 10 * ((n / 10) mod P)) / 10 = (n / 10) mod P) as ->.
  { rewrite Z.mul_comm, Z.div_add by lia. rewrite Z.div_small by lia. lia. }
  apply IH.
Qed.

Lemma numeral_leading d n acc :
  numeral (S d) n acc
  = String (digit_char ((n / 10 ^ Z.of_nat d) mod 10)) (numeral d n acc).
Proof.
  revert n acc. induction d as [|d IH]; intros n acc.
  - simpl. by rewrite Z.div_1_r.
  - change (numeral (S (S d)) n acc)
      with (numeral (S d) (n / 10) (String (digit_char (n mod 10)) acc)).
    rewrite IH. cbn [numeral]. do 3 f_equal.
    rewrite Nat2Z.inj_succ, Z.pow_succ_r by lia. by rewrite Z.div_div by lia.
Qed.

(** X7: asked for zero digits, [totpForCounter] returns the one-character
    string "0" for every seed and counter: [bin % 1] is 0 and [padStart]
    never shortens. *)
Theorem totpForCounter_zero_digits (seed : string) (counter : Z) :
  totpForCounter seed counter 0 = "0"%string.
Proof.
  unfold totpForCounter. change (10 ^ Z.of_nat 0) with 1.
  by rewrite Z.rem_1_r.
Qed.

(** X8: a longer code extends the shorter one to the left: for
    [digits >= 1] the code with [digits + 1] digits is the code with
    [digits] digits preceded by the next decimal digit of the truncated
    value; from 10 digits on that digit is always 0, so asking for more
    than 10 digits adds only leading zeros. *)
Theorem totpForCounter_more_digits (seed : string) (counter : Z) (digits : nat) :
  (1 <= digits)%nat ->
  let bin := dynamicTruncate (mac_of seed counter) in
  totpForCounter seed counter (S digits)
  = String (digit_char ((bin / 10 ^ Z.of_nat digits) mod 10))
           (totpForCounter seed counter digits) /\
  ((10 <= digits)%nat ->
   totpForCounter seed counter (S digits)
   = String "0" (totpForCounter seed counter digits)).
Proof.
  intros Hd. cbv zeta.
  rewrite !totpForCounter_numeral by lia.
  rewrite <- !numeral_mod.
  pose proof (numeral_leading digits
                (dynamicTruncate (mac_of seed counter)) "") as Hl.
  split; [exact Hl|]. intros H10. rewrite Hl.
  pose proof (dynamicTruncate_range _ (mac_of_length seed counter)
                (mac_of_is_byte seed counter)) as Hbin.
  assert (10 ^ 10 <= 10 ^ Z.of_nat digits) by (apply Z.pow_le_mono_r; lia).
  rewrite Z.div_small by lia. reflexivity.
Qed.

Lemma totpForCounter_more_digits_witness :
  (1 <= 6)%nat /\
  totpForCounter "test-seed" 1000 7
  = String (digit_char
              ((dynamicTruncate (mac_of "test-seed" 1000) / 10 ^ Z.of_nat 6)
               mod 10))
           (totpForCounter "test-seed" 1000 6).
Proof.
  split; [lia|].
  apply (totpForCounter_more_digits "test-seed" 1000 6). lia.
Defined.

(** ** Requests that do not consume *)







(** X11: [verify] answers ServerMisconfigured exactly when the submitted
    code passes the boundary check and the seed is empty; it then issues
    no statement and leaves the table as it is.  With an empty seed no
    submission is ever Accepted. *)
Theorem misconfigured_iff
    (cfg : config) (db : Db.table) (sid : string) (code : jsval)
    (now now' : Z) :
  let r := verify cfg db sid code now now' in
  (out r = ServerMisconfigured
   <-> passes_check code /\ PROCTOR_SEED cfg = ""%string) /\
  (out r = ServerMisconfigured -> db_after r = db /\ trace r = []) /\
  (PROCTOR_SEED cfg = ""%string -> is_accepted (out r) = false).
Proof.
  cbv zeta.
  destruct (verify_cases cfg db sid code now now'); cbn [out db_after trace];
    (split; [split|split]); try done; intros; try tauto; by destruct_and?.
Qed.

(** ** Handlers under every schedule *)



Lemma step_extends {A} (p : prog A) db : exists new, (step p db).2 = db ++ new.
Proof.
  destruct p as [a|w s k|w s t k]; cbn [step];
    try (exists []; by rewrite app_nil_r).
  pose proof (insert_or_ignore_extends db (Db.Row w s t)) as [new Hn].
  destruct (Db.insert_or_ignore db (Db.Row w s t)). by exists new.
Qed.

Lemma interleave_extends {A} sched (ps : list (prog A)) db :
  exists new, (interleave sched ps db).2 = db ++ new.
Proof.
  revert ps db. induction sched as [|i sched IH]; intros ps db.
  - exists []. by rewrite app_nil_r.
  - cbn [interleave]. destruct (ps !! i) as [p|]; [|apply IH].
    pose proof (step_extends p db) as [n1 H1].
    destruct (step p db) as [p' db']. cbn [snd] in H1. subst db'.
    destruct (IH (<[i:=p']> ps) (db ++ n1)) as [n2 ->].
    exists (n1 ++ n2). by rewrite app_assoc.
Qed.




(** X12: whatever the handlers and in whatever order their statements
    run, the table only grows at its end and never holds two rows under
    one (window, sid): the double acceptance of a race writes one row. *)
Theorem any_schedule_keeps_primary_key
    (sched : list nat) (ps : list (prog outcome)) (db : Db.table) :
  Db.unique_keys db ->
  Db.unique_keys (interleave sched ps db).2 /\
  exists new, (interleave sched ps db).2 = db ++ new.
Proof.
  intros H. split; [by apply interleave_unique_keys|apply interleave_extends].
Qed.

Lemma any_schedule_keeps_primary_key_witness :
  Db.unique_keys [] /\
  Db.unique_keys
    (interleave [0; 1; 0; 1]%nat
       [handler cfg0 (Request "s1" (JString "165774") 30000000 30000001);
        handler cfg0 (Request "s1" (JString "165774") 30000000 30000002)]
       []).2.
Proof.
  split; [apply unique_keys_nil|].
  apply (any_schedule_keeps_primary_key [0; 1; 0; 1]%nat _ []).
  apply unique_keys_nil.
Defined.



(** ** The script and the server *)




(** ** Strings *)

Lemma all_chars_impl (P Q : Ascii.ascii -> bool) s :
  (forall c, P c = true -> Q c = true) ->
  all_chars P s = true -> all_chars Q s = true.
Proof.
  intros HPQ. induction s as [|c s IH]; simpl; [done|].
  intros [Hc Hs]%andb_true_iff. apply andb_true_iff. auto.
Qed.

Lemma indexOf_ge c s : -1 <= indexOf c s.
Proof.
  induction s as [|x s IH]; simpl; [lia|].
  destruct (Ascii.eqb x c); [lia|]. destruct (indexOf c s <? 0); lia.
Qed.

Lemma indexOf_absent c s :
  all_chars (fun x => negb (Ascii.eqb x c)) s = true <-> indexOf c s = -1.
Proof.
  induction s as [|x s IH]; simpl; [done|].
  pose proof (indexOf_ge c s).
  destruct (Ascii.eqb x c); simpl.
  - split; [discriminate|lia].
  - rewrite IH. destruct (Z.ltb_spec (indexOf c s) 0); lia.
Qed.

Lemma indexOf_cons_ne c x s :
  Ascii.eqb x c = false -> 0 <= indexOf c s ->
  indexOf c (String x s) = indexOf c s + 1.
Proof.
  intros Hx Hi. simpl. rewrite Hx.
  destruct (Z.ltb_spec (indexOf c s) 0); lia.
Qed.

Lemma split_absent sep s :
  all_chars (fun x => negb (Ascii.eqb x sep)) s = true -> split sep s = [s].
Proof.
  induction s as [|c s IH]; simpl; [done|].
  intros [Hc Hs]%andb_true_iff. apply negb_true_iff in Hc.
  by rewrite Hc, IH.
Qed.

Lemma split_nonempty sep s : split sep s <> [].
Proof.
  destruct s as [|c s]; simpl; [done|].
  destruct (Ascii.eqb c sep); [done|]. by destruct (split sep s).
Qed.

Lemma split_pieces_absent sep s :
  Forall (fun p => all_chars (fun x => negb (Ascii.eqb x sep)) p = true)
         (split sep s).
Proof.
  induction s as [|c s IH]; simpl; [by repeat constructor|].
  destruct (Ascii.eqb c sep) eqn:Hc; [by constructor|].
  destruct (split sep s) as [|x xs]; [by repeat constructor; simpl; rewrite Hc|].
  apply Forall_cons in IH as [Hx Hxs]. constructor; [|done].
  simpl. by rewrite Hc, Hx.
Qed.

Lemma trimStart_absent P s :
  all_chars P s = true -> all_chars P (trimStart s) = true.
Proof.
  induction s as [|c s IH]; simpl; [done|].
  intros [Hc Hs]%andb_true_iff. destruct (is_ws c); [auto|].
  simpl. by rewrite Hc, Hs.
Qed.

Lemma trimEnd_absent P s :
  all_chars P s = true -> all_chars P (trimEnd s) = true.
Proof.
  induction s as [|c s IH]; simpl; [done|].
  intros [Hc Hs]%andb_true_iff. specialize (IH Hs).
  destruct (trimEnd s) as [|d r].
  - destruct (is_ws c); simpl; [done|]. by rewrite Hc.
  - change (all_chars P (String c (String d r)))
      with (P c && all_chars P (String d r)). by rewrite Hc, IH.
Qed.

Lemma trimEnd_cons c s :
  is_ws c = false -> trimEnd (String c s) = String c (trimEnd s).
Proof. intros Hc. simpl. destruct (trimEnd s); by rewrite ?Hc. Qed.

Lemma trimEnd_idem s : trimEnd (trimEnd s) = trimEnd s.
Proof.
  induction s as [|c s IH]; simpl; [done|].
  destruct (trimEnd s) as [|d r] eqn:E.
  - destruct (is_ws c) eqn:Hc; [done|]. simpl. by rewrite Hc.
  - change (trimEnd (String c (String d r))) with
      (match trimEnd (String d r) with
       | EmptyString => if is_ws c then EmptyString else String c EmptyString
       | r0 => String c r0
       end).
    by rewrite IH.
Qed.

Lemma trimStart_head s :
  trimStart s = EmptyString \/
  exists c t, trimStart s = String c t /\ is_ws c = false.
Proof.
  induction s as [|c s IH]; simpl; [by left|].
  destruct (is_ws c) eqn:Hc; [done|]. right. by exists c, s.
Qed.

Lemma trim_idem s : trim (trim s) = trim s.
Proof.
  unfold trim. destruct (trimStart_head s) as [->|(c & t & -> & Hc)]; [done|].
  rewrite trimEnd_cons by done. simpl trimStart. rewrite Hc.
  rewrite <- trimEnd_cons by done. apply trimEnd_idem.
Qed.

Lemma trim_no_ws s :
  all_chars (fun c => negb (is_ws c)) s = true -> trim s = s.
Proof.
  unfold trim. induction s as [|c s IH]; [done|].
  cbn [all_chars]. intros [Hc Hs]%andb_true_iff. apply negb_true_iff in Hc.
  simpl trimStart. rewrite Hc. rewrite trimEnd_cons by done. f_equal.
  destruct s as [|d s]; [done|].
  cbn [all_chars] in Hs. apply andb_true_iff in Hs as [Hd Hs'].
  apply negb_true_iff in Hd. specialize (IH ltac:(cbn [all_chars];
    by rewrite Hd, Hs')). simpl trimStart in IH. by rewrite Hd in IH.
Qed.

Lemma substring_all s : String.substring 0 (String.length s) s = s.
Proof. induction s as [|c s IH]; simpl; [done|]. by rewrite IH. Qed.

(** ** The lists read from the environment *)

(** X15: every entry of a list read from the environment
    ([ALLOWED_ORIGINS], [FRAME_ANCESTORS]) is non-empty, has no white space
    at either end and contains no comma. *)
Theorem env_list_entries (env s : string) :
  s ∈ env_list env ->
  s <> ""%string /\ trim s = s /\ indexOf "," s = -1.
Proof.
  unfold env_list. intros H%list_elem_of_In.
  apply List.filter_In in H as [Hin Hne].
  apply negb_true_iff, String.eqb_neq in Hne. split; [done|].
  apply list_elem_of_In, list_elem_of_fmap in Hin as (p & -> & Hp).
  split; [apply trim_idem|].
  apply indexOf_absent. unfold trim. apply trimEnd_absent, trimStart_absent.
  pose proof (split_pieces_absent "," env) as Hall.
  eapply Forall_forall in Hall; [exact Hall|done].
Qed.

Lemma env_list_entries_witness :
  "https://a.example"%string ∈ env_list " https://a.example , ,https://b.example" /\
  "https://a.example"%string <> ""%string /\
  trim "https://a.example" = "https://a.example"%string /\
  indexOf "," "https://a.example" = -1.
Proof.
  assert ("https://a.example"%string
          ∈ env_list " https://a.example , ,https://b.example") as H
    by (apply list_elem_of_In; vm_compute; auto).
  split; [exact H|].
  exact (env_list_entries _ _ H).
Defined.

(** ** Session identifiers *)

Lemma hex_digit_spec n :
  0 <= n < 16 ->
  hex_value (hex_digit n) = Some n /\ is_lower_hex (hex_digit n) = true.
Proof.
  intros H. rewrite <- (Z2Nat.id n) by lia.
  assert (Z.to_nat n < 16)%nat as Hm by lia.
  generalize dependent (Z.to_nat n). clear. intros m Hm.
  do 16 (destruct m as [|m]; [by vm_compute|]). lia.
Qed.

Lemma toHex_length buf : String.length (toHex buf) = (2 * length buf)%nat.
Proof. induction buf as [|b bs IH]; simpl; [done|]. rewrite IH. lia. Qed.

Lemma toHex_fromHex buf :
  Forall is_byte buf -> fromHex (toHex buf) = Some buf.
Proof.
  induction 1 as [|b bs Hb _ IH]; [done|]. unfold is_byte in Hb.
  cbn [toHex fromHex].
  destruct (hex_digit_spec (b / 16)) as [-> _];
    [Z.to_euclidean_division_equations; lia|].
  destruct (hex_digit_spec (b mod 16)) as [-> _];
    [Z.to_euclidean_division_equations; lia|].
  rewrite IH. do 2 f_equal. Z.to_euclidean_division_equations; lia.
Qed.

Lemma toHex_lower_hex buf :
  Forall is_byte buf -> all_chars is_lower_hex (toHex buf) = true.
Proof.
  induction 1 as [|b bs Hb _ IH]; [done|]. unfold is_byte in Hb.
  cbn [toHex all_chars].
  destruct (hex_digit_spec (b / 16)) as [_ ->];
    [Z.to_euclidean_division_equations; lia|].
  destruct (hex_digit_spec (b mod 16)) as [_ ->];
    [Z.to_euclidean_division_equations; lia|].
  done.
Qed.

Lemma lower_hex_char c :
  is_lower_hex c = true ->
  plain_char c = true /\ unreserved c = true.
Proof.
  destruct c as [[] [] [] [] [] [] [] []]; vm_compute; intros; try done.
Qed.

Lemma encodeURIComponent_unreserved s :
  all_chars unreserved s = true -> encodeURIComponent s = s.
Proof.
  induction s as [|c s IH]; [done|]. cbn [all_chars encodeURIComponent].
  intros [Hc Hs]%andb_true_iff. by rewrite Hc, IH.
Qed.

Lemma plain_char_spec c :
  plain_char c = true ->
  Ascii.eqb c ";" = false /\ Ascii.eqb c "=" = false /\
  Ascii.eqb c "%" = false /\ is_ws c = false.
Proof.
  unfold plain_char. rewrite !andb_true_iff, !negb_true_iff. tauto.
Qed.

Lemma makeSid_encode rnd :
  Forall is_byte rnd -> encodeURIComponent (makeSid rnd) = makeSid rnd.
Proof.
  intros Hb. apply encodeURIComponent_unreserved.
  eapply all_chars_impl; [|by apply toHex_lower_hex].
  intros c Hc. by apply lower_hex_char.
Qed.

Lemma makeSid_injective r1 r2 :
  Forall is_byte r1 -> Forall is_byte r2 ->
  makeSid r2 = makeSid r1 -> r2 = r1.
Proof.
  intros H1 H2 E.
  pose proof (toHex_fromHex r1 H1) as E1.
  pose proof (toHex_fromHex r2 H2) as E2.
  unfold makeSid in E. congruence.
Qed.

(** X16: a session identifier is the lower-case hexadecimal text of the
    random bytes, two characters per byte: the bytes can be read back from
    it, so different draws give different identifiers; 16 bytes give 32
    characters; and [encodeURIComponent] leaves it unchanged, so the
    [Set-Cookie] header carries it as it is. *)
Theorem makeSid_hex (randomBytes : list Z) :
  Forall is_byte randomBytes ->
  fromHex (makeSid randomBytes) = Some randomBytes /\
  String.length (makeSid randomBytes) = (2 * length randomBytes)%nat /\
  all_chars is_lower_hex (makeSid randomBytes) = true /\
  encodeURIComponent (makeSid randomBytes) = makeSid randomBytes /\
  (forall other, Forall is_byte other ->
                 makeSid other = makeSid randomBytes -> other = randomBytes).
Proof.
  intros Hb. unfold makeSid.
  split; [by apply toHex_fromHex|]. split; [apply toHex_length|].
  split; [by apply toHex_lower_hex|]. split.
  - by apply makeSid_encode.
  - intros other Ho E. by apply makeSid_injective.
Qed.

Lemma makeSid_hex_witness :
  Forall is_byte bytes16 /\
  fromHex (makeSid bytes16) = Some bytes16 /\
  makeSid bytes16 = "0102030405060708090a0b0c0d0e0fff"%string.
Proof.
  assert (Forall is_byte bytes16) as H
    by (repeat (apply Forall_cons; split; [unfold is_byte; lia|]);
        apply Forall_nil_2).
  split; [exact H|]. split; [exact (proj1 (makeSid_hex _ H))|reflexivity].
Defined.

(** ** Cookies *)

Section CookieFacts.
Variable decodeURIComponent : string -> option string.

Lemma plain_all s :
  all_chars plain_char s = true ->
  all_chars (fun x => negb (Ascii.eqb x ";")) s = true /\
  indexOf "=" s = -1 /\ indexOf "%" s = -1 /\ trim s = s.
Proof.
  intros H. split; [|split; [|split]].
  - eapply all_chars_impl; [|exact H].
    intros c (-> & _)%plain_char_spec. done.
  - apply indexOf_absent. eapply all_chars_impl; [|exact H].
    intros c (_ & -> & _)%plain_char_spec. done.
  - apply indexOf_absent. eapply all_chars_impl; [|exact H].
    intros c (_ & _ & -> & _)%plain_char_spec. done.
  - apply trim_no_ws. eapply all_chars_impl; [|exact H].
    intros c (_ & _ & _ & ->)%plain_char_spec. done.
Qed.

(** The part [sid=v], with or without the space that follows a [;]. *)
Lemma parse_part_sid out v :
  decodes_plain decodeURIComponent -> all_chars plain_char v = true ->
  parse_part decodeURIComponent out ("sid=" +:+ v)
  = Some (<["sid"%string := v]> out) /\
  parse_part decodeURIComponent out (" sid=" +:+ v)
  = Some (<["sid"%string := v]> out).
Proof.
  intros Hdec Hv. destruct (plain_all v Hv) as (_ & _ & Hpct & Htrim).
  unfold parse_part. split.
  - assert (indexOf "=" ("sid=" +:+ v) = 3) as -> by reflexivity.
    cbn [Z.ltb Z.compare].
    assert (slice ("sid=" +:+ v) 0 3 = "sid"%string) as -> by reflexivity.
    assert (slice_from ("sid=" +:+ v) (3 + 1) = v) as ->.
    { unfold slice_from. simpl. rewrite Nat.sub_0_r. apply substring_all. }
    rewrite Htrim, (Hdec v Hpct). reflexivity.
  - assert (indexOf "=" (" sid=" +:+ v) = 4) as -> by reflexivity.
    cbn [Z.ltb Z.compare].
    assert (slice (" sid=" +:+ v) 0 4 = " sid"%string) as -> by reflexivity.
    assert (slice_from (" sid=" +:+ v) (4 + 1) = v) as ->.
    { unfold slice_from. simpl. rewrite Nat.sub_0_r. apply substring_all. }
    rewrite Htrim, (Hdec v Hpct). reflexivity.
Qed.

End CookieFacts.

Section SessionFacts.
Variable decodeURIComponent : string -> option string.





Lemma session_of_fresh cookies rnd :
  Forall is_byte rnd -> cookies !! "sid"%string = None ->
  session_of cookies rnd
  = (makeSid rnd,
     Some ("sid=" +:+ makeSid rnd
           +:+ "; HttpOnly; SameSite=Lax; Path=/; Max-Age=2592000")).
Proof.
  intros Hb Hn. unfold session_of. rewrite Hn.
  by rewrite makeSid_encode.
Qed.



End SessionFacts.

Lemma decode_plain_decodes_plain : decodes_plain decode_plain.
Proof. intros s Hs. unfold decode_plain. by rewrite Hs. Qed.




Lemma split_app sep a b :
  split sep (a +:+ String sep b) = split sep a ++ split sep b.
Proof.
  induction a as [|c a IH]; simpl.
  - by rewrite Ascii.eqb_refl.
  - destruct (Ascii.eqb c sep); [by rewrite IH|].
    rewrite IH. pose proof (split_nonempty sep a).
    by destruct (split sep a).
Qed.

Lemma parse_parts_app dec out xs ys :
  parse_parts dec out (xs ++ ys)
  = match parse_parts dec out xs with
    | Some out' => parse_parts dec out' ys
    | None => None
    end.
Proof.
  revert out. induction xs as [|x xs IH]; intros out; simpl; [done|].
  destruct (parse_part dec out x); [apply IH|done].
Qed.

Lemma append_nonempty a b : a <> ""%string -> a +:+ b <> ""%string.
Proof. by destruct a. Qed.

(** X19: when a Cookie header carries several [sid] pairs the last one
    wins: a header that parses to [out], followed by [; sid=v] for a value
    [v] without separators, escapes or white space, parses to [out] with
    [sid] set to [v], and a non-empty [v] then is the session. *)
Theorem last_sid_cookie_wins
    (decodeURIComponent : string -> option string)
    (header v : string) (out : gmap string string) :
  decodes_plain decodeURIComponent ->
  header <> ""%string ->
  parseCookies decodeURIComponent header = Some out ->
  all_chars plain_char v = true ->
  parseCookies decodeURIComponent (header +:+ "; sid=" +:+ v)
  = Some (<["sid"%string := v]> out) /\
  (v <> ""%string ->
   forall randomBytes,
     session_of (<["sid"%string := v]> out) randomBytes = (v, None)).
Proof.
  intros Hdec Hne Hparse Hv. split.
  - unfold parseCookies in *.
    destruct (String.eqb header "") eqn:E;
      [by apply String.eqb_eq in E|].
    pose proof (append_nonempty header ("; sid=" +:+ v) Hne) as Hne'.
    apply String.eqb_neq in Hne'. rewrite Hne'.
    change ("; sid=" +:+ v) with (String ";" (" sid=" +:+ v)).
    rewrite split_app, parse_parts_app, Hparse.
    rewrite split_absent.
    + cbn [parse_parts].
      by rewrite (proj2 (parse_part_sid decodeURIComponent out v Hdec Hv)).
    + destruct (plain_all v Hv) as (Hsemi & _).
      change (all_chars (fun x => negb (Ascii.eqb x ";")) (" sid=" +:+ v))
        with (all_chars (fun x => negb (Ascii.eqb x ";")) v).
      exact Hsemi.
  - intros Hv' rnd. unfold session_of. rewrite lookup_insert_eq.
    by destruct v.
Qed.

(** X20: a Cookie header without any [=] holds no cookie: whatever else
    it contains, [parseCookies] returns the empty object without calling
    [decodeURIComponent], and the request gets a fresh session. *)
Theorem header_without_equals_has_no_cookie
    (decodeURIComponent : string -> option string) (header : string)
    (randomBytes : list Z) :
  indexOf "=" header = -1 ->
  parseCookies decodeURIComponent header = Some ∅ /\
  (Forall is_byte randomBytes ->
   (session_of ∅ randomBytes).1 = makeSid randomBytes).
Proof.
  intros Hno. split.
  - unfold parseCookies. destruct (String.eqb header ""); [done|].
    apply indexOf_absent in Hno.
    assert (Forall (fun p => indexOf "=" p = -1) (split ";" header)) as Hall.
    { clear decodeURIComponent randomBytes.
      induction header as [|c s IH]; [by repeat constructor|].
      cbn [all_chars] in Hno. apply andb_true_iff in Hno as [Hc Hs].
      specialize (IH Hs). cbn [split].
      destruct (Ascii.eqb c ";"); [by constructor|].
      destruct (split ";" s) as [|x xs];
        [constructor; [|done]; apply indexOf_absent; cbn [all_chars];
         by rewrite Hc|].
      apply Forall_cons in IH as [Hx Hxs]. constructor; [|done].
      apply indexOf_absent. cbn [all_chars]. rewrite Hc.
      by apply indexOf_absent. }
    induction Hall as [|p ps Hp _ IH]; [done|].
    cbn [parse_parts]. unfold parse_part. rewrite Hp. exact IH.
  - intros Hb. by rewrite session_of_fresh by (done || apply lookup_empty).
Qed.

Lemma last_sid_cookie_wins_witness :
  decodes_plain decode_plain /\ "sid=abc; theme=dark"%string <> ""%string /\
  parseCookies decode_plain "sid=abc; theme=dark"
  = Some (<["theme"%string := "dark"%string]>
            (<["sid"%string := "abc"%string]> ∅)) /\
  all_chars plain_char "0a0b" = true /\
  parseCookies decode_plain ("sid=abc; theme=dark" +:+ "; sid=" +:+ "0a0b")
  = Some (<["sid"%string := "0a0b"%string]>
            (<["theme"%string := "dark"%string]>
               (<["sid"%string := "abc"%string]> ∅))).
Proof.
  assert ("sid=abc; theme=dark"%string <> ""%string) as H1 by discriminate.
  assert (parseCookies decode_plain "sid=abc; theme=dark"
          = Some (<["theme"%string := "dark"%string]>
                    (<["sid"%string := "abc"%string]> ∅))) as H2
    by (vm_compute; reflexivity).
  assert (all_chars plain_char "0a0b" = true) as H3
    by (vm_compute; reflexivity).
  split; [exact decode_plain_decodes_plain|]. split; [exact H1|].
  split; [exact H2|]. split; [exact H3|].
  exact (proj1 (last_sid_cookie_wins decode_plain "sid=abc; theme=dark"
                  "0a0b" _ decode_plain_decodes_plain H1 H2 H3)).
Defined.

Lemma header_without_equals_has_no_cookie_witness :
  indexOf "=" "sid; theme" = -1 /\
  parseCookies decode_plain "sid; theme" = Some ∅.
Proof.
  assert (indexOf "=" "sid; theme" = -1) as H by reflexivity.
  split; [exact H|].
  exact (proj1 (header_without_equals_has_no_cookie decode_plain "sid; theme"
                  [] H)).
Defined.
